(** * PriceMaps: comparison-period resolution, percent change, local quintiles

    A shallow embedding of the computational core of the PriceMaps scripts:

    - [scripts/create_yoy_map.py] and [scripts/create_sophisticated_map.py]:
      the year-ago column resolution, the percent-change column and the
      outlier filter;
    - [scripts/create_price_levels.py]: the price-level outlier filter;
    - the client-side script emitted by [create_sophisticated_map.py]:
      [calculateQuintiles], [updateLocalQuintiles], [updateLegend],
      [isPointInPolygon] and [getZipsInBoundary].

    Numbers.  The scripts compute with IEEE binary64 numbers (pandas
    [float64] columns, JavaScript numbers).  Here a finite number is the
    rational [Qc] that it denotes (canonical rationals, so that numeric
    equality is Leibniz equality), and the non-finite results that the code
    can produce (division by zero in pandas, arithmetic on [undefined] in
    JavaScript) are kept as separate constructors.  The polygon test
    [isPointInPolygon] decides by the last digit of a computed latitude: its
    arithmetic is rounded to binary64 after every operation ([round64]).
    Elsewhere the operations are exact. *)

From Stdlib Require Import Ascii String QArith Qabs Qcanon Qround Lqa.
From Stdlib Require Import PrimFloat SpecFloat FloatOps.
From Stdlib Require Uint63.
From stdpp Require Import base numbers list sorting strings gmap.

Local Open Scope Qc_scope.

(** ** Stable sorting

    Python's [list.sort] and JavaScript's [Array.prototype.sort] are both
    stable.  A stable sort has exactly one result for a given input and
    comparison, so insertion sort stands for both. *)

Section stable_sort.
Context {A : Type} (leb : A → A → bool).

(** Insert [x], which precedes every element of [l] in the input, into the
    sorted list [l]: before the first element that is not smaller. *)
Fixpoint sort_insert (x : A) (l : list A) : list A :=
  match l with
  | [] => [x]
  | y :: l' => if leb x y then x :: y :: l' else y :: sort_insert x l'
  end.

Definition stable_sort (l : list A) : list A := foldr sort_insert [] l.
End stable_sort.

(** ** JavaScript numbers of the quantile engine *)

(** A JavaScript value that results from the arithmetic of
    [calculateQuintiles]: [Some q] is the finite number [q]; [None] is a
    value that is not a finite number ([undefined] from an index out of
    range, and [NaN] from arithmetic on it). *)
Definition jsnum : Type := option Qc.

Definition js_sub (a b : jsnum) : jsnum :=
  match a, b with Some x, Some y => Some (x - y) | _, _ => None end.
Definition js_add (a b : jsnum) : jsnum :=
  match a, b with Some x, Some y => Some (x + y) | _, _ => None end.
Definition js_mul (a b : jsnum) : jsnum :=
  match a, b with Some x, Some y => Some (x * y) | _, _ => None end.

(** Decimal literals of the script. *)
Definition dec (num : Z) (den : positive) : Qc := Q2Qc (num # den).
Definition c0_2 : Qc := dec 2 10.
Definition c0_4 : Qc := dec 4 10.
Definition c0_6 : Qc := dec 6 10.
Definition c0_8 : Qc := dec 8 10.

(** The comparison [(a, b) => a - b] orders [a] before [b] when [a - b <= 0]. *)
Definition Qc_leb (a b : Qc) : bool := bool_decide (a ≤ b).

(** [Math.floor(len * c)] as an array index, the product being exact. *)
Definition floor_index (len : nat) (c : Qc) : nat :=
  Z.to_nat (Qfloor (inject_Z (Z.of_nat len) * this c)%Q).

(** [sorted[i]] *)
Definition js_index (sorted : list Qc) (i : nat) : jsnum := sorted !! i.

(** [calculateQuintiles(values)] *)
Definition calculateQuintiles (values : list Qc) : list jsnum :=
  let sorted := stable_sort Qc_leb values in
  if (length sorted <? 5)%nat then
    let min := js_index sorted 0 in
    let max := js_index sorted (length sorted - 1) in
    let range := js_sub max min in
    [ js_add min (js_mul range (Some c0_2));
      js_add min (js_mul range (Some c0_4));
      js_add min (js_mul range (Some c0_6));
      js_add min (js_mul range (Some c0_8)) ]
  else
    [ js_index sorted (floor_index (length sorted) c0_2);
      js_index sorted (floor_index (length sorted) c0_4);
      js_index sorted (floor_index (length sorted) c0_6);
      js_index sorted (floor_index (length sorted) c0_8) ].

(** Integer literals. *)
Definition zq (z : Z) : Qc := Q2Qc (inject_Z z).

(** ** The page state of the client-side script *)

(** An entry of [zipData].  The display name [n] and the base radius [r] are
    left out: only rendering reads them. *)
Record zip_record := {
  z : string;
  lat : Qc;
  lon : Qc;
  p : Qc;
  pop : Z;
}.

(** A Leaflet [LatLng] and a Leaflet [LatLngBounds]. *)
Record latlng := LatLng { ll_lat : Qc; ll_lng : Qc }.

Record bounds := {
  south : Qc;
  west : Qc;
  north : Qc;
  east : Qc;
}.

(** Leaflet's [bounds.contains(latlng)]: containment with the border
    included. *)
Definition bounds_contains (b : bounds) (pt : latlng) : bool :=
  Qc_leb (south b) (ll_lat pt) && Qc_leb (ll_lat pt) (north b) &&
  Qc_leb (west b) (ll_lng pt) && Qc_leb (ll_lng pt) (east b).

(** What [drawnBoundary] can hold.  A polygon layer comes with the bounds
    that Leaflet reports for it ([layer.getBounds()]) and with its outer ring
    ([polygon.getLatLngs()[0]]).  Leaflet computes the bounds from the
    vertices: the bounds of a polygon without vertices have no corners, and
    [b] stands for nothing then. *)
Inductive layer :=
  | Rectangle (b : bounds)
  | Polygon (b : bounds) (latlngs : list latlng)
  | OtherLayer.

(** How a call of the client-side script ends: it returns a value, or a
    [TypeError] leaves it. *)
Inductive completion (A : Type) :=
  | Returns (a : A)
  | TypeError.
Arguments Returns {A} a.
Arguments TypeError {A}.

(** [array.filter(callback)] with a callback that can raise: the error of
    the first element on which the callback raises leaves [filter]. *)
Fixpoint array_filter {A : Type} (callback : A → completion bool) (l : list A)
    : completion (list A) :=
  match l with
  | [] => Returns []
  | x :: l' =>
      match callback x with
      | TypeError => TypeError
      | Returns keep =>
          match array_filter callback l' with
          | TypeError => TypeError
          | Returns filtered => Returns (if keep then x :: filtered else filtered)
          end
      end
  end.

(** The parts of the legend that [updateLegend] writes and that the
    properties below read: the four thresholds shown, and the text of the
    [zipCount] line, which is either empty or "Analyzing [n] ZIP codes in
    view", with or without the "(small sample)" note.  The population line
    and the size note are left out. *)
Record legend := {
  shown_quintiles : list jsnum;
  zip_count_line : option (nat * bool);
}.

Record page := {
  isLocalMode : bool;
  currentQuintiles : list jsnum;
  currentMinPop : option Z;
  currentMaxPop : option Z;
  drawnBoundary : option layer;
  view : bounds;               (* [map.getBounds()] *)
  the_legend : legend;
}.

(** [Math.min(...populations)] and [Math.max(...populations)] on a list that
    is not empty. *)
Definition math_min (l : list Z) : option Z :=
  match l with [] => None | x :: l' => Some (foldr Z.min x l') end.
Definition math_max (l : list Z) : option Z :=
  match l with [] => None | x :: l' => Some (foldr Z.max x l') end.

(** ** Binary64 arithmetic of the polygon test

    A binary64 number is the rational it denotes.  An arithmetic operation of
    JavaScript gives the exact result rounded to the nearest binary64 number,
    ties going to the even significand; the subnormal numbers are included.
    Coordinates are degrees, so that overflow is out of reach: it is not
    represented, and neither are the infinities and the sign of zero, which
    the comparisons of the script do not tell apart from large numbers and
    from zero. *)

(** [floor (log2 q)], for a positive [q]. *)
Definition floor_log2 (q : Q) : Z :=
  let k := (Z.log2 (Qnum q) - Z.log2 (Zpos (Qden q)))%Z in
  if Qle_bool (2 ^ k)%Q q then k else (k - 1)%Z.

(** The nearest integer, the even one of two that are equally near. *)
Definition round_even (q : Q) : Z :=
  let f := Qfloor q in
  match (q - inject_Z f ?= 1 # 2)%Q with
  | Lt => f
  | Gt => (f + 1)%Z
  | Eq => if Z.even f then f else (f + 1)%Z
  end.

(** The exponent of the last place of the binary64 numbers around [q]:
    53 significant bits, and no exponent below -1074. *)
Definition ulp_exponent (q : Q) : Z := Z.max (floor_log2 (Qabs q) - 52) (-1074).

Definition round64 (q : Qc) : Qc :=
  if bool_decide (q = 0) then 0
  else let e := ulp_exponent q in
       Q2Qc (inject_Z (round_even (q / 2 ^ e)%Q) * 2 ^ e)%Q.

(** The finite numbers that a JavaScript variable can hold: the fixed
    points of the rounding, up to the largest one, (2^53 - 1) * 2^971. *)
Definition max_binary64 : Qc := Q2Qc (inject_Z (2 ^ 53 - 1) * 2 ^ 971)%Q.

Definition is_binary64 (q : Qc) : Prop :=
  round64 q = q ∧ - max_binary64 ≤ q ∧ q ≤ max_binary64.

(** [a - b], [a * b], [a / b] and [a + b] of JavaScript. *)
Definition fl_sub (a b : Qc) : Qc := round64 (a - b).
Definition fl_mul (a b : Qc) : Qc := round64 (a * b).
Definition fl_div (a b : Qc) : Qc := round64 (a / b).
Definition fl_add (a b : Qc) : Qc := round64 (a + b).

(** [isPointInPolygon]: the loop [for (i = 0, j = n - 1; i < n; j = i++)]
    visits the vertices in order, [j] being the vertex visited before [i]
    and the last vertex at the start.  [crosses] is the test [intersect] of
    one round; the division is by zero only when the first operand of [&&]
    is false. *)
Definition crosses (point vi vj : latlng) : bool :=
  let xi := ll_lat vi in let yi := ll_lng vi in
  let xj := ll_lat vj in let yj := ll_lng vj in
  xorb (bool_decide (ll_lng point < yi)) (bool_decide (ll_lng point < yj))
  && bool_decide (ll_lat point
                  < fl_add (fl_div (fl_mul (fl_sub xj xi) (fl_sub (ll_lng point) yi))
                                   (fl_sub yj yi))
                           xi).

Fixpoint pip_loop (point vj : latlng) (rest : list latlng) (inside : bool) : bool :=
  match rest with
  | [] => inside
  | vi :: rest' =>
      pip_loop point vi rest' (if crosses point vi vj then negb inside else inside)
  end.

Definition isPointInPolygon (point : latlng) (latlngs : list latlng) : bool :=
  match last latlngs with
  | None => false
  | Some vlast => pip_loop point vlast latlngs false
  end.

(** [layer.getBounds().contains(point)] for a polygon layer: [contains]
    reads the corners of the bounds, and raises when there are none. *)
Definition polygon_bounds_contain (b : bounds) (latlngs : list latlng) (point : latlng)
    : completion bool :=
  match latlngs with
  | [] => TypeError
  | _ :: _ => Returns (bounds_contains b point)
  end.

(** The callback that [getZipsInBoundary] passes to [zipData.filter], for
    the layer [lyr] in [drawnBoundary]. *)
Definition in_boundary (lyr : layer) (zp : zip_record) : completion bool :=
  let point := LatLng (lat zp) (lon zp) in
  match lyr with
  | Rectangle b => Returns (bounds_contains b point)
  | Polygon b latlngs =>
      match polygon_bounds_contain b latlngs point with
      | TypeError => TypeError
      | Returns contained =>
          Returns (if negb contained then false else isPointInPolygon point latlngs)
      end
  | OtherLayer => Returns false
  end.

Section client_script.
(** The two constants that the generator writes into the page. *)
Context (zipData : list zip_record) (globalQuintiles : list jsnum).

(** [getVisibleZips] *)
Definition getVisibleZips (st : page) : list zip_record :=
  filter (λ zp, bounds_contains (view st) (LatLng (lat zp) (lon zp)) = true) zipData.

(** [getZipsInBoundary]; [Returns None] is the JavaScript [null]. *)
Definition getZipsInBoundary (st : page) : completion (option (list zip_record)) :=
  match drawnBoundary st with
  | None => Returns None
  | Some lyr =>
      match array_filter (in_boundary lyr) zipData with
      | TypeError => TypeError
      | Returns filtered => Returns (Some filtered)
      end
  end.

(** How a call of [updateMarkers] ends.  It redraws the markers and writes
    none of the variables of [page]; with a boundary drawn in local mode it
    calls [getZipsInBoundary] to choose the markers. *)
Definition updateMarkers (st : page) : completion unit :=
  if bool_decide (is_Some (drawnBoundary st)) && isLocalMode st then
    match getZipsInBoundary st with
    | TypeError => TypeError
    | Returns _ => Returns tt
    end
  else Returns tt.

(** [updateLegend(quintiles, zipCount, minPop, maxPop, isSmallSample)] *)
Definition updateLegend (st : page) (quintiles : list jsnum) (zipCount : nat)
    (isSmallSample : bool) : legend :=
  {| shown_quintiles := quintiles;
     zip_count_line :=
       if isLocalMode st
       then Some (zipCount, isSmallSample && bool_decide (2 ≤ zipCount)%nat)
       else None |}.

(** The common tail of [updateLocalQuintiles] and
    [updateBoundaryQuintiles], for the selection [zips]. *)
Definition set_quintiles_for (st : page) (zips : list zip_record) : page :=
  if (length zips <? 2)%nat then
    {| isLocalMode := isLocalMode st;
       currentQuintiles := globalQuintiles;
       currentMinPop := None;
       currentMaxPop := None;
       drawnBoundary := drawnBoundary st;
       view := view st;
       the_legend := updateLegend st globalQuintiles (length zips) false |}
  else
    let prices := p <$> zips in
    let populations := pop <$> zips in
    let quintiles := calculateQuintiles prices in
    let isSmallSample := (length zips <? 5)%nat in
    {| isLocalMode := isLocalMode st;
       currentQuintiles := quintiles;
       currentMinPop := math_min populations;
       currentMaxPop := math_max populations;
       drawnBoundary := drawnBoundary st;
       view := view st;
       the_legend := updateLegend st quintiles (length zips) isSmallSample |}.

(** [updateLocalQuintiles]: the page when the call ends, and how it ends.
    The call of [updateMarkers] is the last statement. *)
Definition updateLocalQuintiles (st : page) : page * completion unit :=
  if negb (isLocalMode st) then (st, Returns tt)
  else
    let st' := set_quintiles_for st (getVisibleZips st) in
    (st', updateMarkers st').

(** [updateBoundaryQuintiles]: a [null] selection counts as empty; an error
    of [getZipsInBoundary] leaves the call before anything is written. *)
Definition updateBoundaryQuintiles (st : page) : page * completion unit :=
  if negb (isLocalMode st) then (st, Returns tt)
  else
    match getZipsInBoundary st with
    | TypeError => (st, TypeError)
    | Returns boundaryZips =>
        let st' := set_quintiles_for st (default [] boundaryZips) in
        (st', updateMarkers st')
    end.
End client_script.

(** ** The batch scripts: columns and dates *)

(** The fields of a Python [datetime] that the scripts read. *)
Record datetime := { year : Z; month : Z; day : Z }.

(** ['-' in col] *)
Fixpoint has_dash (col : string) : bool :=
  match col with
  | EmptyString => false
  | String c rest => Ascii.eqb c "-"%char || has_dash rest
  end.

(** Truth value of [year_ago_date], which is [None] or a string: [None] and
    the empty string are false. *)
Definition truthy (v : option string) : bool :=
  match v with
  | None => false
  | Some EmptyString => false
  | Some (String _ _) => true
  end.

(** How a run of the year-ago resolution ends. *)
Inductive resolution :=
  | NoDateColumns                      (* "No date columns found" *)
  | LatestDateUnparsable               (* [strptime(latest_date, ...)] raises *)
  | NoYearAgoData                      (* "Could not find year-ago data" *)
  | Resolved (latest_date year_ago_date : string).

(** Comparison of candidates by their key [x[1]]. *)
Definition key_leb (a b : string * Z) : bool := (a.2 <=? b.2)%Z.

(** ** The batch scripts: frames and float columns *)

(** A value of a pandas [float64] column.  Division by zero does not raise
    in pandas: it gives an infinity or [NaN].  A missing cell is [NaN].  The
    sign of a zero is not represented (a zero divisor is [+0]). *)
Inductive float64 :=
  | Fin (q : Qc)
  | PosInf
  | NegInf
  | NaN.

Definition f_sub (a b : float64) : float64 :=
  match a, b with
  | NaN, _ | _, NaN => NaN
  | Fin x, Fin y => Fin (x - y)
  | PosInf, PosInf | NegInf, NegInf => NaN
  | PosInf, _ | _, NegInf => PosInf
  | NegInf, _ | _, PosInf => NegInf
  end.

Definition f_neg (a : float64) : float64 :=
  match a with
  | Fin x => Fin (- x)
  | PosInf => NegInf
  | NegInf => PosInf
  | NaN => NaN
  end.

(** [inf] with the sign of [x * inf]; [x] is finite. *)
Definition signed_inf (x : Qc) (inf : float64) : float64 :=
  if bool_decide (x = 0) then NaN
  else if bool_decide (0 < x) then inf else f_neg inf.

Definition f_div (a b : float64) : float64 :=
  match a, b with
  | NaN, _ | _, NaN => NaN
  | Fin x, Fin y => if bool_decide (y = 0) then signed_inf x PosInf else Fin (x / y)
  | Fin _, (PosInf | NegInf) => Fin 0
  | (PosInf | NegInf), (PosInf | NegInf) => NaN
  | inf, Fin y => if bool_decide (y < 0) then f_neg inf else inf
  end.

Definition f_mul (a b : float64) : float64 :=
  match a, b with
  | NaN, _ | _, NaN => NaN
  | Fin x, Fin y => Fin (x * y)
  | Fin x, inf | inf, Fin x => signed_inf x inf
  | PosInf, PosInf | NegInf, NegInf => PosInf
  | PosInf, NegInf | NegInf, PosInf => NegInf
  end.

(** [a < b] and [a <= b]; every comparison with [NaN] is false. *)
Definition f_lt (a b : float64) : bool :=
  match a, b with
  | NaN, _ | _, NaN => false
  | Fin x, Fin y => bool_decide (x < y)
  | NegInf, (Fin _ | PosInf) => true
  | Fin _, PosInf => true
  | _, _ => false
  end.

Definition f_le (a b : float64) : bool :=
  match a, b with
  | NaN, _ | _, NaN => false
  | Fin x, Fin y => bool_decide (x ≤ y)
  | NegInf, _ | _, PosInf => true
  | _, _ => false
  end.

Definition f_gt (a b : float64) : bool := f_lt b a.
Definition f_ge (a b : float64) : bool := f_le b a.

Definition notna (a : float64) : bool :=
  match a with NaN => false | _ => true end.

(** A row of the Zillow frame: the region columns and the month columns.  A
    month column with no entry in [cells] holds a missing value. *)
Record row := {
  RegionName : Z;
  State : string;
  City : string;
  cells : gmap string Qc;
}.

(** [df[col]] at a row *)
Definition cell (r : row) (col : string) : float64 :=
  match cells r !! col with
  | Some q => Fin q
  | None => NaN
  end.

Module create_yoy_map.
Section resolve.
(** [datetime.strptime(col, "%Y-%m-%d")]; [None] when it raises. *)
Context (strptime : string → option datetime).

(** The first loop: the first column of the target year and month. *)
Fixpoint find_exact (target_year target_month : Z) (date_columns : list string)
    : option string :=
  match date_columns with
  | [] => None
  | col :: rest =>
      match strptime col with
      | Some col_date =>
          if (year col_date =? target_year)%Z && (month col_date =? target_month)%Z
          then Some col
          else find_exact target_year target_month rest
      | None => find_exact target_year target_month rest
      end
  end.

(** The second loop: [year_ago_candidates], in column order. *)
Fixpoint candidates (target_year target_month : Z) (date_columns : list string)
    : list (string * Z) :=
  match date_columns with
  | [] => []
  | col :: rest =>
      match strptime col with
      | Some col_date =>
          if (year col_date =? target_year)%Z
          then (col, Z.abs (month col_date - target_month))
                 :: candidates target_year target_month rest
          else candidates target_year target_month rest
      | None => candidates target_year target_month rest
      end
  end.

(** The resolution, from [df.columns] to [year_ago_date].  The sorted
    candidate list is empty exactly when [year_ago_candidates] is. *)
Definition year_ago (columns : list string) : resolution :=
  let date_columns := filter (λ col, has_dash col = true) columns in
  match last date_columns with
  | None => NoDateColumns
  | Some latest_date =>
      match strptime latest_date with
      | None => LatestDateUnparsable
      | Some date_obj =>
          let target_year := (year date_obj - 1)%Z in
          let target_month := month date_obj in
          let year_ago_date := find_exact target_year target_month date_columns in
          let year_ago_date :=
            if negb (truthy year_ago_date) then
              match stable_sort key_leb
                      (candidates target_year target_month date_columns) with
              | [] => year_ago_date
              | first :: _ => Some first.1
              end
            else year_ago_date in
          match year_ago_date with
          | Some d => if truthy (Some d) then Resolved latest_date d else NoYearAgoData
          | None => NoYearAgoData
          end
      end
  end.
End resolve.

(** [df_yoy] before the outlier filter: [dropna], then the new columns. *)
Record yoy_row := {
  src : row;
  latest_price : float64;
  year_ago_price : float64;
  yoy_change : float64;
}.

Definition with_yoy_change (df : list row) (latest_date year_ago_date : string)
    : list yoy_row :=
  let df_yoy :=
    filter (λ r, notna (cell r latest_date) && notna (cell r year_ago_date) = true) df in
  (λ r,
     let latest_price := cell r latest_date in
     let year_ago_price := cell r year_ago_date in
     {| src := r;
        latest_price := latest_price;
        year_ago_price := year_ago_price;
        yoy_change :=
          f_mul (f_div (f_sub latest_price year_ago_price) year_ago_price)
                (Fin (zq 100)) |}) <$> df_yoy.

(** [df_yoy] after "Filter extreme outliers". *)
Definition df_yoy (df : list row) (latest_date year_ago_date : string) : list yoy_row :=
  filter (λ x, f_gt (yoy_change x) (Fin (zq (-50))) && f_lt (yoy_change x) (Fin (zq 100)) = true)
         (with_yoy_change df latest_date year_ago_date).
End create_yoy_map.

Module create_sophisticated_map.
Section resolve.
(** [datetime.strptime(col, "%Y-%m-%d")]; [None] when it raises. *)
Context (strptime : string → option datetime).

Fixpoint find_exact (target_year target_month : Z) (date_columns : list string)
    : option string :=
  match date_columns with
  | [] => None
  | col :: rest =>
      match strptime col with
      | Some col_date =>
          if (year col_date =? target_year)%Z && (month col_date =? target_month)%Z
          then Some col
          else find_exact target_year target_month rest
      | None => find_exact target_year target_month rest
      end
  end.

Fixpoint candidates (target_year target_month : Z) (date_columns : list string)
    : list (string * Z) :=
  match date_columns with
  | [] => []
  | col :: rest =>
      match strptime col with
      | Some col_date =>
          if (year col_date =? target_year)%Z
          then (col, Z.abs (month col_date - target_month))
                 :: candidates target_year target_month rest
          else candidates target_year target_month rest
      | None => candidates target_year target_month rest
      end
  end.

(** The resolution, from [df.columns] to [year_ago_date].  The sorted
    candidate list is empty exactly when [year_ago_candidates] is. *)
Definition year_ago (columns : list string) : resolution :=
  let date_columns := filter (λ col, has_dash col = true) columns in
  match last date_columns with
  | None => NoDateColumns
  | Some latest_date =>
      match strptime latest_date with
      | None => LatestDateUnparsable
      | Some date_obj =>
          let target_year := (year date_obj - 1)%Z in
          let target_month := month date_obj in
          let year_ago_date := find_exact target_year target_month date_columns in
          let year_ago_date :=
            if negb (truthy year_ago_date) then
              match stable_sort key_leb
                      (candidates target_year target_month date_columns) with
              | [] => year_ago_date
              | first :: _ => Some first.1
              end
            else year_ago_date in
          match year_ago_date with
          | Some d => if truthy (Some d) then Resolved latest_date d else NoYearAgoData
          | None => NoYearAgoData
          end
      end
  end.
End resolve.

(** [df_analysis] before the outlier filter: [dropna], then the new column. *)
Record analysis_row := {
  src : row;
  price_change_pct : float64;
}.

Definition with_price_change (df : list row) (latest_date year_ago_date : string)
    : list analysis_row :=
  let df_analysis :=
    filter (λ r, notna (cell r year_ago_date) && notna (cell r latest_date) = true) df in
  (λ r,
     {| src := r;
        price_change_pct :=
          f_mul (f_div (f_sub (cell r latest_date) (cell r year_ago_date))
                       (cell r year_ago_date))
                (Fin (zq 100)) |}) <$> df_analysis.

Definition df_analysis (df : list row) (latest_date year_ago_date : string)
    : list analysis_row :=
  filter (λ x, f_ge (price_change_pct x) (Fin (zq (-50)))
               && f_le (price_change_pct x) (Fin (zq 100)) = true)
         (with_price_change df latest_date year_ago_date).
End create_sophisticated_map.

Module create_price_levels.

Record level_row := {
  src : row;
  price_level : float64;
}.

Definition with_price_level (df : list row) (latest_date : string) : list level_row :=
  let df_analysis := filter (λ r, notna (cell r latest_date) = true) df in
  (λ r, {| src := r; price_level := cell r latest_date |}) <$> df_analysis.

(** [df_analysis] after "Remove extreme outliers". *)
Definition df_analysis (df : list row) (latest_date : string) : list level_row :=
  filter (λ x, f_ge (price_level x) (Fin (zq 10000))
               && f_le (price_level x) (Fin (zq 10000000)) = true)
         (with_price_level df latest_date).

End create_price_levels.

(** ** A concrete [strptime]

    The resolution above is stated for any parser.  For the examples,
    [strptime_ymd] follows Python's [datetime.strptime(col, "%Y-%m-%d")] on
    ASCII strings: four digits, a month of one or two digits in 1..12, a day
    of one or two digits, or of a space and one digit, that exists in that
    month, and nothing else. *)

Definition digit_of (c : ascii) : option Z :=
  let n := Z.of_N (N_of_ascii c) in
  if (48 <=? n)%Z && (n <=? 57)%Z then Some (n - 48)%Z else None.

Fixpoint digits_value (acc : Z) (s : string) : option Z :=
  match s with
  | EmptyString => Some acc
  | String c rest =>
      match digit_of c with
      | Some d => digits_value (10 * acc + d)%Z rest
      | None => None
      end
  end.

(** The fields between dashes; [cur] is the field being read, reversed. *)
Fixpoint split_dash (cur : string) (s : string) : list string :=
  match s with
  | EmptyString => [String.rev cur]
  | String c rest =>
      if Ascii.eqb c "-"%char then String.rev cur :: split_dash EmptyString rest
      else split_dash (String c cur) rest
  end.

Definition is_leap (y : Z) : bool :=
  ((y mod 4 =? 0) && negb (y mod 100 =? 0) || (y mod 400 =? 0))%Z.

Definition days_in_month (y m : Z) : Z :=
  if (m =? 2)%Z then (if is_leap y then 29 else 28)%Z
  else if ((m =? 4) || (m =? 6) || (m =? 9) || (m =? 11))%Z then 30%Z
  else 31%Z.

Definition field_value (min_len max_len : nat) (s : string) : option Z :=
  if ((min_len <=? String.length s) && (String.length s <=? max_len))%nat
  then digits_value 0 s else None.

(** The directive [%d] also matches a space and a digit from 1 to 9. *)
Definition day_value (s : string) : option Z :=
  match s with
  | String " " (String c EmptyString) =>
      match digit_of c with
      | Some d => if (1 <=? d)%Z then Some d else None
      | None => None
      end
  | _ => field_value 1 2 s
  end.

Definition strptime_ymd (col : string) : option datetime :=
  match split_dash EmptyString col with
  | [ys; ms; ds] =>
      match field_value 4 4 ys, field_value 1 2 ms, day_value ds with
      | Some y, Some m, Some d =>
          if ((1 <=? y) && (1 <=? m) && (m <=? 12) && (1 <=? d)
              && (d <=? days_in_month y m))%Z
          then Some {| year := y; month := m; day := d |}
          else None
      | _, _, _ => None
      end
  | _ => None
  end.

(** ** The client-side script: colours, view toggle, boundary events *)

(** [value <= q] for a threshold [q] that may not be a number. *)
Definition js_le (value : Qc) (q : jsnum) : bool :=
  match q with
  | Some y => Qc_leb value y
  | None => false
  end.

(** [currentQuintiles[i]] *)
Definition quintile (st : page) (i : nat) : jsnum :=
  default None (currentQuintiles st !! i).

(** [getColor(value)] *)
Definition getColor (st : page) (value : Qc) : string :=
  if js_le value (quintile st 0) then "#000000"
  else if js_le value (quintile st 1) then "#999999"
  else if js_le value (quintile st 2) then
    (if bool_decide (is_Some (drawnBoundary st)) && isLocalMode st
     then "#f8f8f8" else "#C6DCCB")
  else if js_le value (quintile st 3) then "#99ccff"
  else "#0bb4ff".

Section client_script_events.
Context (zipData : list zip_record) (globalQuintiles : list jsnum).

(** [toggleView]; the class toggles and button texts are left out. *)
Definition toggleView (st : page) : page * completion unit :=
  let st1 :=
    {| isLocalMode := negb (isLocalMode st);
       currentQuintiles := currentQuintiles st;
       currentMinPop := currentMinPop st;
       currentMaxPop := currentMaxPop st;
       drawnBoundary := drawnBoundary st;
       view := view st;
       the_legend := the_legend st |} in
  if isLocalMode st1 then updateLocalQuintiles zipData globalQuintiles st1
  else
    let st2 :=
      {| isLocalMode := isLocalMode st1;
         currentQuintiles := globalQuintiles;
         currentMinPop := None;
         currentMaxPop := None;
         drawnBoundary := drawnBoundary st1;
         view := view st1;
         the_legend := updateLegend st1 globalQuintiles (length zipData) false |} in
    (st2, updateMarkers zipData st2).

(** [clearDrawnBoundary] *)
Definition clearDrawnBoundary (st : page) : page * completion unit :=
  match drawnBoundary st with
  | None => (st, Returns tt)
  | Some _ =>
      let st1 :=
        {| isLocalMode := isLocalMode st;
           currentQuintiles := currentQuintiles st;
           currentMinPop := currentMinPop st;
           currentMaxPop := currentMaxPop st;
           drawnBoundary := None;
           view := view st;
           the_legend := the_legend st |} in
      if isLocalMode st1 then updateLocalQuintiles zipData globalQuintiles st1
      else (st1, Returns tt)
  end.

(** The handler of [L.Draw.Event.CREATED] for the new layer [lyr]. *)
Definition on_draw_created (lyr : layer) (st : page) : page * completion unit :=
  let st1 :=
    {| isLocalMode := isLocalMode st;
       currentQuintiles := currentQuintiles st;
       currentMinPop := currentMinPop st;
       currentMaxPop := currentMaxPop st;
       drawnBoundary := Some lyr;
       view := view st;
       the_legend := the_legend st |} in
  if negb (isLocalMode st1) then toggleView st1
  else updateBoundaryQuintiles zipData globalQuintiles st1.

(** The handler of [moveend zoomend], when the 300 ms timer fires. *)
Definition on_move_settled (st : page) : page * completion unit :=
  if isLocalMode st then
    (if bool_decide (is_Some (drawnBoundary st))
     then updateBoundaryQuintiles zipData globalQuintiles st
     else updateLocalQuintiles zipData globalQuintiles st)
  else (st, updateMarkers zipData st).

(** What the user and the map can do to the page.  [ClearBoundary] is the
    "Clear Boundary" button ([toggleDrawMode] with a boundary drawn) and the
    deletion of the drawn layer. *)
Inductive event :=
  | ToggleView
  | MoveSettled
  | DrawCreated (lyr : layer)
  | ClearBoundary.

(** The map is moved by the user at any time; a handler reads
    [map.getBounds()] when it runs.  [with_view b st] is the page with the
    map showing [b]. *)
Definition with_view (b : bounds) (st : page) : page :=
  {| isLocalMode := isLocalMode st;
     currentQuintiles := currentQuintiles st;
     currentMinPop := currentMinPop st;
     currentMaxPop := currentMaxPop st;
     drawnBoundary := drawnBoundary st;
     view := b;
     the_legend := the_legend st |}.

(** The event [e], handled while the map shows [b]: the page when the
    handler ends, and how it ends. *)
Definition handle (be : bounds * event) (st : page) : page * completion unit :=
  let st1 := with_view be.1 st in
  match be.2 with
  | ToggleView => toggleView st1
  | MoveSettled => on_move_settled st1
  | DrawCreated lyr => on_draw_created lyr st1
  | ClearBoundary => clearDrawnBoundary st1
  end.

(** The page as the script leaves it after loading, with the map showing
    [b] and the legend as the generator wrote it. *)
Definition initial_page (b : bounds) (lg : legend) : page :=
  {| isLocalMode := false;
     currentQuintiles := globalQuintiles;
     currentMinPop := None;
     currentMaxPop := None;
     drawnBoundary := None;
     view := b;
     the_legend := lg |}.

(** The page after the events [es], oldest first.  An error that leaves a
    handler is reported on the console, and the page goes on with the state
    that the handler had reached. *)
Definition run (es : list (bounds * event)) (st : page) : page :=
  foldl (λ st be, (handle be st).1) st es.
End client_script_events.

(** The radius that [updateMarkers] gives the marker of [zp], whose base
    radius [zip.r] is [r], at zoom level [zoom]: sized by the population
    relative to the selection in local mode, by the base radius otherwise. *)
Definition global_radius (zoom : Qc) (r : Qc) : Qc :=
  if Qc_leb zoom (zq 1) then r * dec 2 100
  else if bool_decide (zoom = zq 2) then r * dec 5 100
  else if bool_decide (zoom = zq 3) then r * dec 15 100
  else if bool_decide (zoom = zq 4) then r * dec 3 10
  else if bool_decide (zoom = zq 5) then r * dec 5 10
  else if bool_decide (zoom = zq 6) then r * dec 8 10
  else if Qc_leb (zq 7) zoom && bool_decide (zoom < zq 9) then r * zq 1
  else if Qc_leb (zq 9) zoom then r * dec 15 10
  else r.

Definition local_radius (zoom : Qc) (minPop maxPop : Z) (zp : zip_record) : Qc :=
  let relativePosition := zq (pop zp - minPop) / zq (maxPop - minPop) in
  let radius := zq 10 + relativePosition * zq 12 in
  if Qc_leb zoom (zq 3) then radius * dec 5 10
  else if Qc_leb zoom (zq 5) then radius * dec 7 10
  else if Qc_leb (zq 9) zoom then radius * dec 13 10
  else radius.

Definition marker_radius (st : page) (zoom : Qc) (r : Qc) (zp : zip_record) : Qc :=
  match currentMinPop st, currentMaxPop st with
  | Some minPop, Some maxPop =>
      if isLocalMode st && bool_decide (minPop < maxPop)%Z
      then local_radius zoom minPop maxPop zp
      else global_radius zoom r
  | _, _ => global_radius zoom r
  end.

(** The fill opacity that [updateMarkers] gives the marker of [zp]. *)
Definition marker_fillOpacity (zoom : Qc) (zp : zip_record) : Qc :=
  if Qc_leb zoom (zq 1) then dec 4 10
  else if bool_decide (zoom = zq 2) then
    (if bool_decide (pop zp < 50000)%Z then dec 3 10
     else if bool_decide (pop zp < 75000)%Z then dec 4 10
     else dec 5 10)
  else if bool_decide (zoom = zq 3) then
    (if bool_decide (pop zp < 30000)%Z then dec 4 10
     else if bool_decide (pop zp < 50000)%Z then dec 6 10
     else dec 75 100)
  else if bool_decide (zoom = zq 4) then
    (if bool_decide (pop zp < 20000)%Z then dec 5 10
     else if bool_decide (pop zp < 50000)%Z then dec 7 10
     else dec 8 10)
  else if bool_decide (zoom = zq 5) then
    (if bool_decide (pop zp < 5000)%Z then dec 4 10
     else if bool_decide (pop zp < 15000)%Z then dec 6 10
     else if bool_decide (pop zp < 30000)%Z then dec 7 10
     else dec 8 10)
  else dec 8 10.

(** ** The batch scripts: marker sizes *)

(** [np.select(conditions, choices, default)] at one row: the choice of the
    first condition that holds, the default when none does. *)
Fixpoint np_select (conditions : list bool) (choices : list Qc) (default : Qc) : Qc :=
  match conditions, choices with
  | c :: conditions', v :: choices' =>
      if c then v else np_select conditions' choices' default
  | _, _ => default
  end.

(** [series.fillna(value)] at one row. *)
Definition fillna (value : Qc) (a : float64) : float64 :=
  match a with
  | NaN => Fin value
  | _ => a
  end.

(** [create_sophisticated_map.py]: the [radius] column from the
    [population] column, which has been through [fillna(1000)]. *)
Definition population_radius (population : float64) : Qc :=
  np_select
    [ f_lt population (Fin (zq 5000));
      f_lt population (Fin (zq 20000));
      f_lt population (Fin (zq 50000));
      f_lt population (Fin (zq 100000));
      f_lt population (Fin (zq 500000));
      f_ge population (Fin (zq 500000)) ]
    [ zq 3; zq 4; zq 6; zq 10; zq 16; zq 25 ]
    (zq 1).

Definition radius_column (population : float64) : Qc :=
  population_radius (fillna (zq 1000) population).

(** [series.clip(lower, upper)] at one row; a missing value stays missing. *)
Definition clip (lower upper : Qc) (a : float64) : float64 :=
  match a with
  | NaN => NaN
  | _ =>
      if f_lt a (Fin lower) then Fin lower
      else if f_lt (Fin upper) a then Fin upper
      else a
  end.

(** [Math.min(a, b)] for a number [b]. *)
Definition math_min2 (a : float64) (b : Qc) : float64 :=
  match a with
  | NaN => NaN
  | _ => if f_lt a (Fin b) then a else Fin b
  end.

(** [create_yoy_map.py] and [create_price_levels.py]: the radius of a
    marker, [Math.min(zip.bubble_size, 20)], where [bubble_size] is
    [(np.sqrt(population) * 0.5).clip(lower=3, upper=50)].  The square root
    is not modelled: [size] is the value of [np.sqrt(population) * 0.5]. *)
Definition bubble_radius (size : float64) : float64 :=
  math_min2 (clip (zq 3) (zq 50) size) (zq 20).

(** ** [check_for_updates.py] *)

(** [s.split(sep)] for a one-character separator; [cur] is the field being
    read, reversed. *)
Fixpoint split_char (sep : ascii) (cur : string) (s : string) : list string :=
  match s with
  | EmptyString => [String.rev cur]
  | String c rest =>
      if Ascii.eqb c sep then String.rev cur :: split_char sep EmptyString rest
      else split_char sep (String c cur) rest
  end.

Module check_for_updates.

(** What a run of [main] leaves: the exit code, the [NEW_DATA=...] line it
    printed if any, and the metadata file. *)
Record outcome := {
  exit_code : Z;
  new_data : option bool;
  metadata_file : option (gmap string string);
}.

(** [get_stored_date]: the metadata file is absent, or holds a JSON object
    (here with string values). *)
Definition get_stored_date (file : option (gmap string string)) : option string :=
  match file with
  | Some metadata => metadata !! "last_date"%string
  | None => None
  end.

(** [save_metadata(date_str)], at the time [now]. *)
Definition save_metadata (date_str now : string) : option (gmap string string) :=
  Some {[ "last_date"%string := date_str; "checked_at"%string := now ]}.

Section main.
(** [datetime.strptime(s, "%Y-%m-%d")]; [None] when it raises. *)
Context (strptime : string → option datetime).

(** [get_latest_date_from_zillow]: [header] is the first line of the
    response, [None] when the request or the read raises.  The result
    [(None, None)] is [None]. *)
Definition get_latest_date_from_zillow (header : option string)
    : option (string * datetime) :=
  match header with
  | None => None
  | Some header_line =>
      let columns := split_char ","%char EmptyString header_line in
      match last columns with
      | None => None
      | Some latest_date_str =>
          match strptime latest_date_str with
          | Some latest_date => Some (latest_date_str, latest_date)
          | None => None
          end
      end
  end.

Definition main (header : option string) (now : string)
    (file : option (gmap string string)) : outcome :=
  let failed := {| exit_code := 1; new_data := None; metadata_file := file |} in
  match get_latest_date_from_zillow header with
  | None => failed
  | Some (latest_date_str, _) =>
      if negb (truthy (Some latest_date_str)) then failed
      else
        match get_stored_date file with
        | None =>
            {| exit_code := 0; new_data := Some true;
               metadata_file := save_metadata latest_date_str now |}
        | Some stored_date =>
            if negb (String.eqb latest_date_str stored_date) then
              {| exit_code := 0; new_data := Some true;
                 metadata_file := save_metadata latest_date_str now |}
            else
              {| exit_code := 0; new_data := Some false; metadata_file := file |}
        end
  end.
End main.
End check_for_updates.

(** ** The client-side script: search *)

(** An entry of [searchIndex]. *)
Record search_item := {
  item_zip : string;
  item_name : string;            (* [z.n.toLowerCase()] *)
  item_nameOriginal : string;
  item_lat : Qc;
  item_lon : Qc;
  item_price : Qc;
  item_pop : Z;
}.

(** [s.startsWith(q)] and [s.includes(q)] *)
Definition startsWith (s q : string) : bool := String.prefix q s.

Fixpoint includes (s q : string) : bool :=
  String.prefix q s ||
  match s with
  | EmptyString => false
  | String _ s' => includes s' q
  end.

(** [/^\d{1,5}$/.test(q)] *)
Fixpoint all_digits (q : string) : bool :=
  match q with
  | EmptyString => true
  | String c q' => bool_decide (is_Some (digit_of c)) && all_digits q'
  end.

Definition is_zip_prefix (q : string) : bool :=
  all_digits q && (1 <=? String.length q)%nat && (String.length q <=? 5)%nat.

(** The keys that [handleSearch] tells apart. *)
Inductive key := ArrowDown | ArrowUp | Enter | Escape | OtherKey.

(** The state of the search box: the selected suggestion, the suggestions,
    whether the list of suggestions is shown, the text of the box, the
    location that the map last flew to, and whether "Location not found"
    was shown. *)
Record search_state := {
  selectedSuggestionIndex : Z;
  currentSuggestions : list search_item;
  suggestions_active : bool;
  searchBox : string;
  flown_to : option search_item;
  alerted : bool;
}.

Section search.
Context (searchIndex : list search_item).
(** [s.trim()] and [s.toLowerCase()] *)
Context (trim toLowerCase : string → string).

(** [searchIndex.find(item => item.zip === zipCode)] and the like *)
Definition find_item (f : search_item → bool) : option search_item :=
  head (filter (λ item, f item = true) searchIndex).

(** [goToLocation(zipCode)] *)
Definition goToLocation (zipCode : string) (st : search_state) : search_state :=
  match find_item (λ item, String.eqb (item_zip item) zipCode) with
  | None => st
  | Some location =>
      {| selectedSuggestionIndex := (-1)%Z;
         currentSuggestions := [];
         suggestions_active := false;
         searchBox := zipCode ++ " - " ++ item_nameOriginal location;
         flown_to := Some location;
         alerted := alerted st |}
  end.

(** [showSuggestions(query)] *)
Definition showSuggestions (query : string) (st : search_state) : search_state :=
  let queryLower := toLowerCase query in
  let matches :=
    if is_zip_prefix query
    then take 10 (filter (λ item, startsWith (item_zip item) query = true) searchIndex)
    else [] in
  let matches :=
    if (length matches =? 0)%nat
    then take 10 (filter (λ item, includes (item_name item) queryLower = true) searchIndex)
    else matches in
  {| selectedSuggestionIndex := selectedSuggestionIndex st;
     currentSuggestions := matches;
     suggestions_active := (0 <? length matches)%nat;
     searchBox := searchBox st;
     flown_to := flown_to st;
     alerted := alerted st |}.

(** [performSearch()] *)
Definition performSearch (st : search_state) : search_state :=
  let query := trim (searchBox st) in
  if negb (truthy (Some query)) then st
  else
    let queryLower := toLowerCase query in
    let found := find_item (λ item, String.eqb (item_zip item) query) in
    let found :=
      match found with
      | None =>
          if is_zip_prefix query
          then find_item (λ item, startsWith (item_zip item) query)
          else found
      | Some _ => found
      end in
    let found :=
      match found with
      | None => find_item (λ item, includes (item_name item) queryLower)
      | Some _ => found
      end in
    match found with
    | Some item => goToLocation (item_zip item) st
    | None =>
        {| selectedSuggestionIndex := selectedSuggestionIndex st;
           currentSuggestions := currentSuggestions st;
           suggestions_active := suggestions_active st;
           searchBox := searchBox st;
           flown_to := flown_to st;
           alerted := true |}
    end.

(** [handleSearch(event)] for the key [k], released with the box holding
    [value].  [None] is the [TypeError] of reading [.zip] of a suggestion
    that does not exist. *)
Definition handleSearch (k : key) (value : string) (st : search_state)
    : option search_state :=
  let st :=
    {| selectedSuggestionIndex := selectedSuggestionIndex st;
       currentSuggestions := currentSuggestions st;
       suggestions_active := suggestions_active st;
       searchBox := value;
       flown_to := flown_to st;
       alerted := alerted st |} in
  let query := trim value in
  let with_selected (i : Z) :=
    {| selectedSuggestionIndex := i;
       currentSuggestions := currentSuggestions st;
       suggestions_active := suggestions_active st;
       searchBox := searchBox st;
       flown_to := flown_to st;
       alerted := alerted st |} in
  let len := Z.of_nat (length (currentSuggestions st)) in
  match k with
  | ArrowDown =>
      if (0 <? len)%Z
      then Some (with_selected (Z.min (selectedSuggestionIndex st + 1) (len - 1))%Z)
      else Some st
  | ArrowUp =>
      if (0 <? len)%Z
      then Some (with_selected (Z.max (selectedSuggestionIndex st - 1) (-1))%Z)
      else Some st
  | Enter =>
      if (0 <=? selectedSuggestionIndex st)%Z then
        match currentSuggestions st !! Z.to_nat (selectedSuggestionIndex st) with
        | Some suggestion => Some (goToLocation (item_zip suggestion) st)
        | None => None
        end
      else Some (performSearch st)
  | Escape =>
      Some {| selectedSuggestionIndex := (-1)%Z;
              currentSuggestions := currentSuggestions st;
              suggestions_active := false;
              searchBox := searchBox st;
              flown_to := flown_to st;
              alerted := alerted st |}
  | OtherKey =>
      let st := with_selected (-1)%Z in
      if (String.length query <? 2)%nat then
        Some {| selectedSuggestionIndex := (-1)%Z;
                currentSuggestions := [];
                suggestions_active := false;
                searchBox := searchBox st;
                flown_to := flown_to st;
                alerted := alerted st |}
      else Some (showSuggestions query st)
  end.

(** The state when the page has loaded. *)
Definition initial_search : search_state :=
  {| selectedSuggestionIndex := (-1)%Z;
     currentSuggestions := [];
     suggestions_active := false;
     searchBox := "";
     flown_to := None;
     alerted := false |}.

(** The state after the key events [ks], oldest first; [None] once a
    handler has raised. *)
Fixpoint type_keys (ks : list (key * string)) (st : search_state)
    : option search_state :=
  match ks with
  | [] => Some st
  | (k, value) :: ks' =>
      match handleSearch k value st with
      | Some st' => type_keys ks' st'
      | None => None
      end
  end.
End search.

(** ** The arithmetic of the examples in binary64

    The expressions of the scripts on primitive binary64 numbers, to
    evaluate the worked examples with the rounding that the scripts have.
    The literals are the binary64 numbers nearest to 0.2, 0.4, 0.6, 0.8. *)
Module binary64.

Definition c0_2 : float := 0x1.999999999999ap-3%float.
Definition c0_4 : float := 0x1.999999999999ap-2%float.
Definition c0_6 : float := 0x1.3333333333333p-1%float.
Definition c0_8 : float := 0x1.999999999999ap-1%float.

(** [(latest - year_ago) / year_ago * 100] *)
Definition change (latest year_ago : float) : float :=
  ((latest - year_ago) / year_ago * 100)%float.

(** [min + range * c], with [range = max - min] *)
Definition interpolate (min max c : float) : float :=
  (min + (max - min) * c)%float.

(** The rational that a finite binary64 number denotes, and the binary64
    number nearest to a rational. *)
Definition to_Qc (f : float) : option Qc :=
  match Prim2SF f with
  | S754_zero _ => Some 0
  | S754_finite s m e =>
      Some (Q2Qc ((if s then -1 else 1) * inject_Z (Zpos m) * 2 ^ e)%Q)
  | _ => None
  end.

Definition of_Qc (q : Qc) : float :=
  if bool_decide (q = 0) then 0%float
  else
    let e := ulp_exponent q in
    let m := round_even (q / 2 ^ e)%Q in
    let f := Z.ldexp (of_uint63 (Uint63.of_Z (Z.abs m))) e in
    if (m <? 0)%Z then (- f)%float else f.

(** [intersect] of [isPointInPolygon], on primitive numbers. *)
Definition intersect (x y xi yi xj yj : float) : bool :=
  (negb (Bool.eqb (y <? yi) (y <? yj))
   && (x <? (xj - xi) * (y - yi) / (yj - yi) + xi))%float.

Definition crosses (point vi vj : latlng) : bool :=
  intersect (of_Qc (ll_lat point)) (of_Qc (ll_lng point))
            (of_Qc (ll_lat vi)) (of_Qc (ll_lng vi))
            (of_Qc (ll_lat vj)) (of_Qc (ll_lng vj)).

End binary64.

(** ** Notions used to state the properties *)

(** A column that parses to a date of year [y] and month [m], and a column
    that parses to a date of year [y]. *)
Definition in_month (strptime : string → option datetime) (y m : Z) (col : string) : Prop :=
  ∃ d, strptime col = Some d ∧ year d = y ∧ month d = m.

Definition in_year (strptime : string → option datetime) (y : Z) (col : string) : Prop :=
  ∃ d, strptime col = Some d ∧ year d = y.

(** A frame row with a price at the latest date and a price a year before. *)
Definition example_row (latest prior : Z) : row :=
  {| RegionName := 10001;
     State := "NY";
     City := "New York";
     cells := {[ "2024-03-31"%string := zq latest; "2023-03-31"%string := zq prior ]} |}.

(** Two segments cross when each separates the end points of the other. *)
Definition orient (a b c : latlng) : Qc :=
  (ll_lat b - ll_lat a) * (ll_lng c - ll_lng a)
  - (ll_lng b - ll_lng a) * (ll_lat c - ll_lat a).

Definition segments_cross (e1 e2 : latlng * latlng) : bool :=
  bool_decide (orient e1.1 e1.2 e2.1 * orient e1.1 e1.2 e2.2 < 0)
  && bool_decide (orient e2.1 e2.2 e1.1 * orient e2.1 e2.2 e1.2 < 0).

(** The edges of a closed ring, and a ring two of whose edges cross. *)
Definition ring_edges (latlngs : list latlng) : list (latlng * latlng) :=
  match latlngs with
  | [] => []
  | v :: rest => combine latlngs (rest ++ [v])
  end.

Definition self_intersecting (latlngs : list latlng) : bool :=
  existsb (λ e1, existsb (segments_cross e1) (ring_edges latlngs)) (ring_edges latlngs).

Definition pt (x y : Z) : latlng := LatLng (zq x) (zq y).

(** The binary64 number that the decimal literal [num / den] denotes. *)
Definition double (num : Z) (den : positive) : Qc := round64 (dec num den).

(** A ring of two vertices, and a point on the segment between them as far
    as binary64 can tell: (0.3, 3). *)
Definition two_vertices : list latlng := [pt 0 0; pt 1 10].

Definition point_on_edge : latlng := LatLng (double 3 10) (zq 3).

(** A triangle with a vertex at latitude 0.001, and a point just south of
    it. *)
Definition thin_triangle : list latlng :=
  [pt 20 2; LatLng (double 1 1000) (zq 0); LatLng (double 40123 1000) (zq 1)].

Definition point_south : latlng :=
  LatLng (double 9999999999999998 10000000000000000000) (zq 0).

(** The coordinates of [vs] are binary64 numbers. *)
Definition all_binary64 (vs : list latlng) : Prop :=
  Forall (λ v, is_binary64 (ll_lat v) ∧ is_binary64 (ll_lng v)) vs.

(** [crosses] and the same test on primitive numbers agree for the point
    [point] and every pair of vertices of [latlngs]. *)
Definition agrees_with_binary64 (point : latlng) (latlngs : list latlng) : bool :=
  forallb (λ u, forallb (λ w,
    Bool.eqb (crosses point u w) (binary64.crosses point u w)) latlngs) latlngs.

(** A bow tie: the edges (0,0)-(10,10) and (10,0)-(0,10) cross at (5,5). *)
Definition bow_tie : list latlng := [pt 0 0; pt 10 10; pt 10 0; pt 0 10].

Definition square : list latlng := [pt 0 0; pt 0 10; pt 10 10; pt 10 0].

(** The parity of the crossings along the path that starts at [vj] and
    visits [rest]: what the loop of [isPointInPolygon] accumulates. *)
Fixpoint path_parity (point vj : latlng) (rest : list latlng) : bool :=
  match rest with
  | [] => false
  | vi :: rest' => xorb (crosses point vi vj) (path_parity point vi rest')
  end.

(** The ring with corners (a,c), (a,d), (b,d), (b,c), in this order. *)
Definition rectangle_ring (a b c d : Qc) : list latlng :=
  [LatLng a c; LatLng a d; LatLng b d; LatLng b c].

(** The latest date that a run can use: the last comma-separated field of
    the header, when it is a date and not empty. *)
Definition usable_latest (strptime : string → option datetime)
    (header : option string) (latest : string) : Prop :=
  ∃ h d, header = Some h ∧
         last (split_char ","%char EmptyString h) = Some latest ∧
         strptime latest = Some d ∧ latest ≠ EmptyString.

(** What the key handler keeps true of the search state: the selected
    index is -1 or the index of a suggestion, and every suggestion is an
    entry of the search index. *)
Definition search_ok (searchIndex : list search_item) (st : search_state) : Prop :=
  (-1 ≤ selectedSuggestionIndex st < Z.of_nat (length (currentSuggestions st)))%Z ∧
  currentSuggestions st ⊆ searchIndex.

(** A list of four thresholds that are all numbers. *)
Definition four_numbers (qs : list jsnum) : Prop :=
  ∃ q0 q1 q2 q3 : Qc, qs = [Some q0; Some q1; Some q2; Some q3].

(** What every handler of the page leaves true: in global mode the
    breakpoints are the global ones and no population range is set; and the
    breakpoints are four numbers when the global ones are. *)
Record page_ok (globalQuintiles : list jsnum) (st : page) : Prop := {
  ok_global :
    isLocalMode st = false →
    currentQuintiles st = globalQuintiles ∧
    currentMinPop st = None ∧ currentMaxPop st = None;
  ok_numbers :
    four_numbers globalQuintiles → four_numbers (currentQuintiles st);
}.

(** A ZIP, a view and a page for the examples. *)
Definition example_zip (code : string) (x y : Z) (change : Z) (people : Z) : zip_record :=
  {| z := code; lat := zq x; lon := zq y; p := zq change; pop := people |}.

Definition example_view : bounds :=
  {| south := zq 0; west := zq 0; north := zq 10; east := zq 10 |}.

Definition example_page (local : bool) (boundary : option layer) : page :=
  {| isLocalMode := local; currentQuintiles := []; currentMinPop := None;
     currentMaxPop := None; drawnBoundary := boundary; view := example_view;
     the_legend := {| shown_quintiles := []; zip_count_line := None |} |}.

(** * Properties *)

(** Equality of concrete numbers, by comparing their fractions. *)
Ltac qc_eq :=
  repeat (f_equal; try reflexivity);
  try (apply Qc_is_canon; vm_compute; reflexivity).

(** ** Facts about the stable sort *)

Section stable_sort_facts.
Context {A : Type} (leb : A → A → bool).
Implicit Types (x : A) (l : list A).

Lemma sort_insert_perm x l : sort_insert leb x l ≡ₚ x :: l.
Proof.
  induction l as [|y l IH]; simpl; [done|].
  destruct (leb x y); [done|].
  rewrite IH. apply Permutation_swap.
Qed.

Lemma stable_sort_perm l : stable_sort leb l ≡ₚ l.
Proof.
  induction l as [|x l IH]; simpl; [done|].
  by rewrite sort_insert_perm, IH.
Qed.

Lemma stable_sort_length l : length (stable_sort leb l) = length l.
Proof. by rewrite stable_sort_perm. Qed.

Context (leb_total : ∀ x y, leb x y = true ∨ leb y x = true).

Lemma sort_insert_sorted x l :
  Sorted (λ a b, leb a b = true) l →
  Sorted (λ a b, leb a b = true) (sort_insert leb x l).
Proof.
  induction 1 as [|y l Hl IH Hy]; simpl.
  - repeat constructor.
  - destruct (leb x y) eqn:Hxy.
    + by repeat constructor.
    + constructor; [done|].
      destruct (leb_total x y) as [?|Hyx]; [congruence|].
      destruct Hy as [|z l Hyz]; simpl in *; [by constructor|].
      destruct (leb x z); by constructor.
Qed.

Lemma stable_sort_sorted l : Sorted (λ a b, leb a b = true) (stable_sort leb l).
Proof.
  induction l as [|x l IH]; simpl; [constructor|].
  by apply sort_insert_sorted.
Qed.
End stable_sort_facts.

(** The head of a sort by an integer key is the first element of the input
    among those of least key. *)
Section sort_by_key.
Context {A : Type} (key : A → Z).
Let leb (a b : A) : bool := (key a <=? key b)%Z.

Lemma stable_sort_head (l : list A) h t :
  stable_sort leb l = h :: t →
  ∃ pre post,
    l = pre ++ h :: post ∧
    Forall (λ a, key h < key a)%Z pre ∧
    Forall (λ a, key h ≤ key a)%Z post.
Proof.
  revert h t. induction l as [|a l IH]; intros h t; simpl; [done|].
  destruct (stable_sort leb l) as [|h' t'] eqn:Hs.
  - simpl. intros [= <- <-].
    apply (f_equal length) in Hs. rewrite stable_sort_length in Hs.
    destruct l; [|done]. by exists [], [].
  - destruct (IH h' t' eq_refl) as (pre & post & -> & Hpre & Hpost).
    simpl. unfold leb at 1. destruct (Z.leb_spec (key a) (key h')) as [Hle|Hlt].
    + intros [= <- <-]. exists [], (pre ++ h' :: post). split_and!; [done|done|].
      rewrite Forall_app, Forall_cons. split_and!; [|done|].
      * eapply Forall_impl; [exact Hpre|]. simpl. lia.
      * eapply Forall_impl; [exact Hpost|]. simpl. lia.
    + intros [= <- <-]. exists (a :: pre), post. split_and!; [done| |done].
      by constructor.
Qed.
End sort_by_key.

(** The order on numbers. *)
Lemma Qc_leb_le a b : Qc_leb a b = true ↔ a ≤ b.
Proof. unfold Qc_leb. apply bool_decide_eq_true. Qed.

Lemma Qc_leb_total a b : Qc_leb a b = true ∨ Qc_leb b a = true.
Proof. rewrite !Qc_leb_le. apply (total Qcle). Qed.

Lemma sorted_values_sorted (values : list Qc) :
  Sorted Qcle (stable_sort Qc_leb values).
Proof.
  pose proof (stable_sort_sorted Qc_leb Qc_leb_total values) as Hs.
  induction Hs as [|x l _ IH Hx]; constructor; [done|].
  destruct Hx; constructor. by apply Qc_leb_le.
Qed.

(** Sorting ascending has one result. *)
Lemma stable_sort_unique (values sorted : list Qc) :
  Sorted Qcle sorted → sorted ≡ₚ values → stable_sort Qc_leb values = sorted.
Proof.
  intros Hs Hp. apply (Sorted_unique Qcle); [apply sorted_values_sorted|done|].
  by rewrite stable_sort_perm.
Qed.

(** ** The quantile engine *)

(** [Math.floor(n * 0.2)] and the like are the integer quotients. *)
Lemma floor_index_tenths (n : nat) :
  floor_index n c0_2 = (n * 2 / 10)%nat ∧
  floor_index n c0_4 = (n * 4 / 10)%nat ∧
  floor_index n c0_6 = (n * 6 / 10)%nat ∧
  floor_index n c0_8 = (n * 8 / 10)%nat.
Proof.
  unfold floor_index, c0_2, c0_4, c0_6, c0_8, dec.
  cbn [this Q2Qc]. 
  replace (Qred (2 # 10)) with (1 # 5)%Q by reflexivity.
  replace (Qred (4 # 10)) with (2 # 5)%Q by reflexivity.
  replace (Qred (6 # 10)) with (3 # 5)%Q by reflexivity.
  replace (Qred (8 # 10)) with (4 # 5)%Q by reflexivity.
  unfold Qmult, inject_Z, Qfloor. cbn [Qnum Qden Pos.mul].
  repeat split; apply Nat2Z.inj; rewrite Z2Nat.id, Nat2Z.inj_div;
    try (apply Z.div_pos; lia);
    rewrite Nat2Z.inj_mul; simpl Z.of_nat;
    set (m := Z.of_nat n); assert (0 ≤ m)%Z by lia; clearbody m.
  all: Z.div_mod_to_equations; lia.
Qed.

Lemma sorted_head_min (l S : list Qc) mn :
  Sorted Qcle l → l ≡ₚ S → mn ∈ S → (∀ x, x ∈ S → mn ≤ x) → l !! 0%nat = Some mn.
Proof.
  intros Hs Hp Hin Hmin. apply Sorted_StronglySorted in Hs; [|apply _].
  destruct Hs as [|h t Ht Hh]; [by rewrite <-Hp in Hin; inv Hin|].
  simpl. f_equal. apply (anti_symm Qcle).
  - rewrite <-Hp in Hin. rewrite Forall_forall in Hh. inv Hin; [done|by apply Hh].
  - apply Hmin. rewrite <-Hp. left.
Qed.

Lemma sorted_last_max (l S : list Qc) mx :
  Sorted Qcle l → l ≡ₚ S → mx ∈ S → (∀ x, x ∈ S → x ≤ mx) →
  l !! (length l - 1)%nat = Some mx.
Proof.
  intros Hs Hp Hin Hmax. apply Sorted_StronglySorted in Hs; [|apply _].
  destruct l as [|z h _] using rev_ind; [by rewrite <-Hp in Hin; inv Hin|].
  rewrite length_app. simpl. replace (length h + 1 - 1)%nat with (length h) by lia.
  rewrite lookup_app_r, Nat.sub_diag by lia. simpl. f_equal.
  apply (anti_symm Qcle).
  - apply Hmax. rewrite <-Hp. set_solver.
  - rewrite <-Hp in Hin. apply elem_of_app in Hin as [Hin|Hin].
    + eapply StronglySorted_app_1_elem_of; [done..|set_solver].
    + by apply list_elem_of_singleton in Hin as ->.
Qed.

Lemma calculateQuintiles_sorted (S sorted : list Qc) :
  Sorted Qcle sorted → sorted ≡ₚ S →
  calculateQuintiles S =
    if (length S <? 5)%nat then
      let range := js_sub (sorted !! (length S - 1)%nat) (sorted !! 0%nat) in
      [ js_add (sorted !! 0%nat) (js_mul range (Some c0_2));
        js_add (sorted !! 0%nat) (js_mul range (Some c0_4));
        js_add (sorted !! 0%nat) (js_mul range (Some c0_6));
        js_add (sorted !! 0%nat) (js_mul range (Some c0_8)) ]
    else
      [ sorted !! (length S * 2 / 10)%nat; sorted !! (length S * 4 / 10)%nat;
        sorted !! (length S * 6 / 10)%nat; sorted !! (length S * 8 / 10)%nat ].
Proof.
  intros Hs Hp. unfold calculateQuintiles, js_index.
  rewrite (stable_sort_unique S sorted Hs Hp).
  assert (length sorted = length S) as -> by by rewrite Hp.
  destruct (floor_index_tenths (length S)) as (-> & -> & -> & ->). done.
Qed.

(** C1. For a list [S] of at least five values, [calculateQuintiles] returns
    the elements of [S] sorted ascending at the zero-based indices
    ⌊0.2·n⌋, ⌊0.4·n⌋, ⌊0.6·n⌋ and ⌊0.8·n⌋, n being the length of [S]; all four
    indices are within the list. *)
Theorem C1_rank_breakpoints (S sorted : list Qc) :
  (5 ≤ length S)%nat →
  Sorted Qcle sorted → sorted ≡ₚ S →
  let n := length S in
  calculateQuintiles S =
    [ sorted !! (n * 2 / 10)%nat; sorted !! (n * 4 / 10)%nat;
      sorted !! (n * 6 / 10)%nat; sorted !! (n * 8 / 10)%nat ]
  ∧ Forall is_Some (calculateQuintiles S).
Proof.
  intros Hn Hs Hp n.
  rewrite (calculateQuintiles_sorted S sorted Hs Hp).
  destruct (Nat.ltb_spec (length S) 5) as [?|_]; [lia|]. split; [done|].
  assert (length sorted = n) as Hlen by by rewrite Hp.
  assert (∀ k, (k < 10)%nat → is_Some (sorted !! (n * k / 10)%nat)) as Hk.
  { intros k Hk. apply lookup_lt_is_Some. rewrite Hlen.
    apply Nat.Div0.div_lt_upper_bound. subst n. nia. }
  repeat constructor; apply Hk; lia.
Qed.

(** The example of C1: for [-10, -5, 0, 5, 10, 15, 20, 25, 30, 35] the
    breakpoints are [0, 10, 20, 30]. *)
Lemma C1_rank_breakpoints_example :
  let S := zq <$> [-10; -5; 0; 5; 10; 15; 20; 25; 30; 35]%Z in
  (5 ≤ length S)%nat ∧
  calculateQuintiles S = Some <$> (zq <$> [0; 10; 20; 30]%Z).
Proof.
  intros S. split; [simpl; lia|].
  refine (proj1 (C1_rank_breakpoints S S _ _ _)); [simpl; lia| |done].
  repeat constructor; by vm_compute.
Defined.

(** C2. For a list [S] of two to four values, [calculateQuintiles] returns
    the points at 20, 40, 60 and 80 percent of the way from the least to the
    greatest value of [S]; and when such an [S] is the selection (the ZIPs in
    view, or the ZIPs inside the drawn boundary), the update stores these
    breakpoints and the legend is given the small-sample note. *)
Theorem C2_small_sample (S : list Qc) (mn mx : Qc) :
  (1 < length S < 5)%nat →
  mn ∈ S → (∀ x, x ∈ S → mn ≤ x) →
  mx ∈ S → (∀ x, x ∈ S → x ≤ mx) →
  calculateQuintiles S =
    [ Some (mn + (mx - mn) * c0_2); Some (mn + (mx - mn) * c0_4);
      Some (mn + (mx - mn) * c0_6); Some (mn + (mx - mn) * c0_8) ]
  ∧ (∀ zipData globalQuintiles st,
       isLocalMode st = true →
       p <$> getVisibleZips zipData st = S →
       let st' := (updateLocalQuintiles zipData globalQuintiles st).1 in
       currentQuintiles st' = calculateQuintiles S ∧
       the_legend st' =
         {| shown_quintiles := calculateQuintiles S;
            zip_count_line := Some (length S, true) |})
  ∧ (∀ zipData globalQuintiles st zips,
       isLocalMode st = true →
       getZipsInBoundary zipData st = Returns (Some zips) →
       p <$> zips = S →
       let st' := (updateBoundaryQuintiles zipData globalQuintiles st).1 in
       currentQuintiles st' = calculateQuintiles S ∧
       the_legend st' =
         {| shown_quintiles := calculateQuintiles S;
            zip_count_line := Some (length S, true) |}).
Proof.
  intros Hn Hmn Hmin Hmx Hmax.
  assert (∀ st zips globalQuintiles,
    isLocalMode st = true → p <$> zips = S →
    let st' := set_quintiles_for globalQuintiles st zips in
    currentQuintiles st' = calculateQuintiles S ∧
    the_legend st' =
      {| shown_quintiles := calculateQuintiles S;
         zip_count_line := Some (length S, true) |}) as Hset.
  { intros st zips gq Hloc HS. unfold set_quintiles_for, updateLegend.
    assert (length zips = length S) as -> by by rewrite <-HS, length_fmap.
    destruct (Nat.ltb_spec (length S) 2) as [?|_]; [lia|].
    destruct (Nat.ltb_spec (length S) 5) as [_|?]; [|lia].
    simpl. rewrite Hloc, HS, bool_decide_eq_true_2 by lia. done. }
  split_and!.
  - rewrite (calculateQuintiles_sorted S (stable_sort Qc_leb S));
      [|apply sorted_values_sorted|apply stable_sort_perm].
    destruct (Nat.ltb_spec (length S) 5) as [_|?]; [|lia].
    pose proof (sorted_head_min _ S mn (sorted_values_sorted S)
                  (stable_sort_perm _ S) Hmn Hmin) as ->.
    pose proof (sorted_last_max _ S mx (sorted_values_sorted S)
                  (stable_sort_perm _ S) Hmx Hmax) as Hlast.
    rewrite stable_sort_length in Hlast. rewrite Hlast. done.
  - intros zipData gq st Hloc HS. unfold updateLocalQuintiles.
    rewrite Hloc. simpl. by apply Hset.
  - intros zipData gq st zips Hloc Hz HS. unfold updateBoundaryQuintiles.
    rewrite Hloc, Hz. simpl. by apply Hset.
Qed.

(** The example of C2: for [0, 10, 50] the breakpoints are
    [10, 20, 30, 40]. *)
Lemma C2_small_sample_example :
  let S := zq <$> [0; 10; 50]%Z in
  (1 < length S < 5)%nat ∧
  calculateQuintiles S = Some <$> (zq <$> [10; 20; 30; 40]%Z).
Proof.
  intros S. split; [simpl; lia|].
  assert (∀ x, x ∈ S → zq 0 ≤ x ∧ x ≤ zq 50) as Hb.
  { intros x Hx. subst S. simpl in Hx.
    repeat (apply elem_of_cons in Hx as [->|Hx]); [by vm_compute..|by inv Hx]. }
  assert (zq 0 ∈ S) as H0 by (subst S; simpl; repeat constructor).
  assert (zq 50 ∈ S) as H50 by (subst S; simpl; repeat constructor).
  assert (1 < length S < 5)%nat as Hn by (simpl; lia).
  rewrite (proj1 (C2_small_sample S (zq 0) (zq 50) Hn
                    H0 (λ x Hx, proj1 (Hb x Hx))
                    H50 (λ x Hx, proj2 (Hb x Hx)))).
  simpl. qc_eq.
Defined.

(** C8. [calculateQuintiles] gives the same breakpoints for a list and for
    any reordering of it. *)
Theorem C8_order_independent (S S' : list Qc) :
  S ≡ₚ S' → calculateQuintiles S = calculateQuintiles S'.
Proof.
  intros Hp. unfold calculateQuintiles.
  replace (stable_sort Qc_leb S') with (stable_sort Qc_leb S); [done|].
  apply stable_sort_unique; [apply sorted_values_sorted|].
  by rewrite stable_sort_perm.
Qed.

Lemma C8_order_independent_example :
  let S := zq <$> [35; -5; 0; 5; 10; 15]%Z in
  let S' := zq <$> [-5; 35; 0; 5; 10; 15]%Z in
  S ≡ₚ S' ∧ calculateQuintiles S = calculateQuintiles S'.
Proof.
  intros S S'. assert (S ≡ₚ S') as Hp by apply Permutation_swap.
  split; [exact Hp|]. exact (C8_order_independent S S' Hp).
Defined.

(** ** The year-ago resolution *)

Lemma has_dash_truthy col : has_dash col = true → truthy (Some col) = true.
Proof. by destruct col. Qed.

Lemma date_column_truthy (columns : list string) col :
  col ∈ filter (λ col, has_dash col = true) columns → truthy (Some col) = true.
Proof. rewrite list_elem_of_filter. intros [? _]. by apply has_dash_truthy. Qed.

(** The two scripts carry the same resolution code. *)
Lemma year_ago_agree strptime columns :
  create_sophisticated_map.year_ago strptime columns
  = create_yoy_map.year_ago strptime columns.
Proof. reflexivity. Qed.

Section resolve_facts.
Context (strptime : string → option datetime) (ty tm : Z).
Local Abbreviation find_exact := (create_yoy_map.find_exact strptime ty tm).
Local Abbreviation candidates := (create_yoy_map.candidates strptime ty tm).

Lemma find_exact_first pre c post :
  in_month strptime ty tm c →
  (∀ col, col ∈ pre → ¬ in_month strptime ty tm col) →
  find_exact (pre ++ c :: post) = Some c.
Proof.
  intros (d & Hd & Hy & Hm) Hpre.
  induction pre as [|col pre IH]; simpl.
  - rewrite Hd. by rewrite (proj2 (Z.eqb_eq _ _) Hy), (proj2 (Z.eqb_eq _ _) Hm).
  - destruct (strptime col) as [dc|] eqn:Hdc.
    + destruct ((year dc =? ty)%Z && (month dc =? tm)%Z) eqn:Hb.
      * exfalso. apply (Hpre col); [left|].
        apply andb_true_iff in Hb as [?%Z.eqb_eq ?%Z.eqb_eq]. by exists dc.
      * apply IH. intros ??. apply Hpre. by right.
    + apply IH. intros ??. apply Hpre. by right.
Qed.

Lemma find_exact_none M :
  (∀ col, col ∈ M → ¬ in_month strptime ty tm col) → find_exact M = None.
Proof.
  induction M as [|col M IH]; intros HM; simpl; [done|].
  destruct (strptime col) as [dc|] eqn:Hdc.
  - destruct ((year dc =? ty)%Z && (month dc =? tm)%Z) eqn:Hb.
    + exfalso. apply (HM col); [left|].
      apply andb_true_iff in Hb as [?%Z.eqb_eq ?%Z.eqb_eq]. by exists dc.
    + apply IH. intros ??. apply HM. by right.
  - apply IH. intros ??. apply HM. by right.
Qed.

(** A list with a matching column splits at its first matching column. *)
Lemma first_in_month M :
  (∃ col, col ∈ M ∧ in_month strptime ty tm col) →
  ∃ pre c post,
    M = pre ++ c :: post ∧ in_month strptime ty tm c ∧
    ∀ col, col ∈ pre → ¬ in_month strptime ty tm col.
Proof.
  induction M as [|col M IH]; intros (c & Hc & Hm); [by inv Hc|].
  destruct (strptime col) as [dc|] eqn:Hdc.
  - destruct (decide (year dc = ty ∧ month dc = tm)) as [[??]|Hne].
    + exists [], col, M. split_and!; [done|by exists dc|by inversion 1].
    + destruct IH as (pre & c' & post & -> & Hc' & Hpre).
      { exists c. split; [|done]. inv Hc; [|done].
        destruct Hm as (d & ? & ? & ?). naive_solver. }
      exists (col :: pre), c', post. split_and!; [done..|].
      intros col' [->|?]%elem_of_cons; [|by apply Hpre].
      intros (d & ? & ? & ?). naive_solver.
  - destruct IH as (pre & c' & post & -> & Hc' & Hpre).
    { exists c. split; [|done]. inv Hc; [|done].
      destruct Hm as (d & ? & ? & ?). naive_solver. }
    exists (col :: pre), c', post. split_and!; [done..|].
    intros col' [->|?]%elem_of_cons; [|by apply Hpre].
    intros (d & ? & ? & ?). naive_solver.
Qed.

Lemma candidates_elem M col d :
  col ∈ M → strptime col = Some d → year d = ty →
  (col, Z.abs (month d - tm)) ∈ candidates M.
Proof.
  intros Hin Hd Hy. induction Hin as [col M|col col' M Hin IH]; simpl.
  - rewrite Hd, (proj2 (Z.eqb_eq _ _) Hy). apply elem_of_cons. by left.
  - destruct (strptime col') as [d'|]; [|by apply IH].
    destruct (year d' =? ty)%Z; [|by apply IH].
    apply elem_of_cons. right. by apply IH.
Qed.

Lemma candidates_split M cpre h cpost :
  candidates M = cpre ++ h :: cpost →
  ∃ pre c post d,
    M = pre ++ c :: post ∧ candidates pre = cpre ∧ candidates post = cpost ∧
    strptime c = Some d ∧ year d = ty ∧ h = (c, Z.abs (month d - tm)).
Proof.
  revert cpre. induction M as [|col M IH]; intros cpre; simpl.
  { by destruct cpre. }
  destruct (strptime col) as [dc|] eqn:Hdc.
  - destruct (year dc =? ty)%Z eqn:Hy.
    + destruct cpre as [|x cpre]; simpl.
      * intros [= <- <-]. exists [], col, M, dc.
        apply Z.eqb_eq in Hy. done.
      * intros [= <- (pre & c & post & d & -> & <- & <- & ? & ? & ->)%IH].
        exists (col :: pre), c, post, d. simpl. rewrite Hdc, Hy. done.
    + intros (pre & c & post & d & -> & <- & <- & ? & ? & ->)%IH.
      exists (col :: pre), c, post, d. simpl. rewrite Hdc, Hy. done.
  - intros (pre & c & post & d & -> & <- & <- & ? & ? & ->)%IH.
    exists (col :: pre), c, post, d. simpl. rewrite Hdc. done.
Qed.
End resolve_facts.

(** C3. When some date column has the year before the latest date's year
    and the latest date's month, both scripts resolve the year-ago column to
    the first such column of the column list. *)
Theorem C3_exact_month (strptime : string → option datetime)
    (columns : list string) (latest : string) (T : datetime) :
  let M := filter (λ col, has_dash col = true) columns in
  last M = Some latest →
  strptime latest = Some T →
  (∃ col, col ∈ M ∧ in_month strptime (year T - 1) (month T) col) →
  ∃ pre c post,
    M = pre ++ c :: post ∧
    in_month strptime (year T - 1) (month T) c ∧
    (∀ col, col ∈ pre → ¬ in_month strptime (year T - 1) (month T) col) ∧
    create_yoy_map.year_ago strptime columns = Resolved latest c ∧
    create_sophisticated_map.year_ago strptime columns = Resolved latest c.
Proof.
  intros M Hlast HT Hex.
  destruct (first_in_month strptime _ _ M Hex) as (pre & c & post & HM & Hc & Hpre).
  exists pre, c, post.
  assert (create_yoy_map.year_ago strptime columns = Resolved latest c) as Hyoy.
  { unfold create_yoy_map.year_ago. fold M. rewrite Hlast, HT. simpl.
    rewrite HM, (find_exact_first strptime _ _ pre c post Hc Hpre).
    assert (truthy (Some c) = true) as Htr.
    { apply (date_column_truthy columns). fold M.
      rewrite HM, elem_of_app, elem_of_cons. auto. }
    simpl. clear -Htr. by destruct c. }
  split_and!; [done..|]. by rewrite year_ago_agree.
Qed.

Lemma C3_exact_month_example :
  let columns :=
    ["RegionID"; "RegionName"; "2023-03-31"; "2023-04-30"; "2024-03-31"]%string in
  let M := filter (λ col, has_dash col = true) columns in
  let T := {| year := 2024; month := 3; day := 31 |} in
  (∃ col, col ∈ M ∧ in_month strptime_ymd (year T - 1) (month T) col) ∧
  ∃ pre c post,
    M = pre ++ c :: post ∧
    in_month strptime_ymd (year T - 1) (month T) c ∧
    (∀ col, col ∈ pre → ¬ in_month strptime_ymd (year T - 1) (month T) col) ∧
    create_yoy_map.year_ago strptime_ymd columns = Resolved "2024-03-31" c ∧
    create_sophisticated_map.year_ago strptime_ymd columns = Resolved "2024-03-31" c.
Proof.
  intros columns M T.
  assert (∃ col, col ∈ M ∧ in_month strptime_ymd (year T - 1) (month T) col) as Hex.
  { exists "2023-03-31"%string. split; [vm_compute; repeat constructor|].
    exists {| year := 2023; month := 3; day := 31 |}. by vm_compute. }
  split; [exact Hex|].
  exact (C3_exact_month strptime_ymd columns "2024-03-31" T eq_refl eq_refl Hex).
Defined.

(** C4. When no date column has the target year and month but some date
    column has the target year, both scripts resolve the year-ago column to
    a column [c] of the target year whose month is nearest to the target
    month: every target-year column before [c] is strictly farther, and
    every target-year column after [c] is at least as far. *)
Theorem C4_closest_month (strptime : string → option datetime)
    (columns : list string) (latest : string) (T : datetime) :
  let M := filter (λ col, has_dash col = true) columns in
  let target_year := (year T - 1)%Z in
  let target_month := month T in
  last M = Some latest →
  strptime latest = Some T →
  (∀ col, col ∈ M → ¬ in_month strptime target_year target_month col) →
  (∃ col, col ∈ M ∧ in_year strptime target_year col) →
  ∃ pre c post dc,
    M = pre ++ c :: post ∧
    strptime c = Some dc ∧ year dc = target_year ∧
    (∀ col d, col ∈ pre → strptime col = Some d → year d = target_year →
       (Z.abs (month dc - target_month) < Z.abs (month d - target_month))%Z) ∧
    (∀ col d, col ∈ post → strptime col = Some d → year d = target_year →
       (Z.abs (month dc - target_month) ≤ Z.abs (month d - target_month))%Z) ∧
    create_yoy_map.year_ago strptime columns = Resolved latest c ∧
    create_sophisticated_map.year_ago strptime columns = Resolved latest c.
Proof.
  intros M ty tm Hlast HT Hnone (col0 & Hcol0 & d0 & Hd0 & Hy0).
  pose proof (candidates_elem strptime ty tm M col0 d0 Hcol0 Hd0 Hy0) as Hcand.
  destruct (stable_sort key_leb (create_yoy_map.candidates strptime ty tm M))
    as [|h t] eqn:Hsort.
  { apply (f_equal length) in Hsort. rewrite stable_sort_length in Hsort.
    destruct (create_yoy_map.candidates strptime ty tm M); [by inv Hcand|done]. }
  destruct (stable_sort_head snd _ h t Hsort) as (cpre & cpost & Hc & Hpre & Hpost).
  destruct (candidates_split strptime ty tm M cpre h cpost Hc)
    as (pre & c & post & dc & HM & Hcpre & Hcpost & Hdc & Hyc & ->).
  assert (truthy (Some c) = true) as Htr.
  { apply (date_column_truthy columns). fold M.
    rewrite HM, elem_of_app, elem_of_cons. auto. }
  exists pre, c, post, dc. split_and!; [done..| | | |].
  - intros col d Hcol Hd Hy. rewrite Forall_forall in Hpre.
    apply (Hpre (col, Z.abs (month d - tm))). rewrite <-Hcpre.
    by apply candidates_elem.
  - intros col d Hcol Hd Hy. rewrite Forall_forall in Hpost.
    apply (Hpost (col, Z.abs (month d - tm))). rewrite <-Hcpost.
    by apply candidates_elem.
  - unfold create_yoy_map.year_ago. fold M. rewrite Hlast, HT. simpl.
    fold ty tm. rewrite (find_exact_none strptime ty tm M Hnone). simpl.
    rewrite Hsort. simpl. clear -Htr. by destruct c.
  - rewrite year_ago_agree.
    unfold create_yoy_map.year_ago. fold M. rewrite Hlast, HT. simpl.
    fold ty tm. rewrite (find_exact_none strptime ty tm M Hnone). simpl.
    rewrite Hsort. simpl. clear -Htr. by destruct c.
Qed.

Lemma C4_closest_month_example :
  let columns :=
    ["RegionName"; "2023-01-31"; "2023-02-28"; "2023-04-30"; "2024-03-31"]%string in
  let M := filter (λ col, has_dash col = true) columns in
  let T := {| year := 2024; month := 3; day := 31 |} in
  (∀ col, col ∈ M → ¬ in_month strptime_ymd 2023 3 col) ∧
  (∃ col, col ∈ M ∧ in_year strptime_ymd 2023 col) ∧
  ∃ pre c post dc,
    M = pre ++ c :: post ∧
    strptime_ymd c = Some dc ∧ year dc = 2023%Z ∧
    (∀ col d, col ∈ pre → strptime_ymd col = Some d → year d = 2023%Z →
       (Z.abs (month dc - 3) < Z.abs (month d - 3))%Z) ∧
    (∀ col d, col ∈ post → strptime_ymd col = Some d → year d = 2023%Z →
       (Z.abs (month dc - 3) ≤ Z.abs (month d - 3))%Z) ∧
    create_yoy_map.year_ago strptime_ymd columns = Resolved "2024-03-31" c ∧
    create_sophisticated_map.year_ago strptime_ymd columns = Resolved "2024-03-31" c.
Proof.
  intros columns M T.
  assert (M = ["2023-01-31"; "2023-02-28"; "2023-04-30"; "2024-03-31"]%string)
    as HM by reflexivity.
  assert (∀ col, col ∈ M → ¬ in_month strptime_ymd 2023 3 col) as Hnone.
  { intros col Hcol (d & Hd & Hy & Hm). rewrite HM in Hcol.
    repeat (apply elem_of_cons in Hcol as [->|Hcol]);
      [vm_compute in Hd; injection Hd as <-; simpl in *; lia..|by inv Hcol]. }
  assert (∃ col, col ∈ M ∧ in_year strptime_ymd 2023 col) as Hex.
  { exists "2023-01-31"%string. split; [rewrite HM; by left|].
    exists {| year := 2023; month := 1; day := 31 |}. by vm_compute. }
  split_and!; [exact Hnone|exact Hex|].
  exact (C4_closest_month strptime_ymd columns "2024-03-31" T eq_refl eq_refl Hnone Hex).
Defined.

(** The day of a date may be padded with a space, as Python's [%d] allows;
    other paddings and dates that do not exist are refused. *)
Example strptime_ymd_days :
  strptime_ymd "2023-03- 1" = Some {| year := 2023; month := 3; day := 1 |} ∧
  strptime_ymd "2023-3-1" = Some {| year := 2023; month := 3; day := 1 |} ∧
  strptime_ymd "2023-03- 0" = None ∧
  strptime_ymd "2023- 3-01" = None ∧
  strptime_ymd "2023-02-29" = None ∧
  strptime_ymd "2023-03-011" = None.
Proof. by vm_compute. Qed.

(** The resolved column of the example of C4 is the earlier of the two
    nearest months. *)
Example year_ago_tie :
  create_yoy_map.year_ago strptime_ymd
    ["RegionName"; "2023-01-31"; "2023-04-30"; "2023-02-28"; "2024-03-31"]%string
  = Resolved "2024-03-31" "2023-04-30".
Proof. reflexivity. Qed.

(** With no column of the target year, the resolution fails. *)
Lemma year_ago_no_data (strptime : string → option datetime)
    (columns : list string) (latest : string) (T : datetime) :
  let M := filter (λ col, has_dash col = true) columns in
  last M = Some latest →
  strptime latest = Some T →
  (∀ col, col ∈ M → ¬ in_year strptime (year T - 1) col) →
  create_yoy_map.year_ago strptime columns = NoYearAgoData.
Proof.
  intros M Hlast HT Hnone.
  unfold create_yoy_map.year_ago. fold M. rewrite Hlast, HT. simpl.
  rewrite find_exact_none.
  2: { intros col Hcol (d & ? & ? & ?). apply (Hnone col Hcol). by exists d. }
  simpl.
  destruct (create_yoy_map.candidates strptime (year T - 1) (month T) M)
    as [|[c k] cs] eqn:Hc; [done|].
  destruct (candidates_split strptime _ _ M [] (c, k) cs Hc)
    as (pre & c' & post & d & HM & _ & _ & Hd & Hy & _).
  exfalso. apply (Hnone c'); [|by exists d].
  rewrite HM, elem_of_app, elem_of_cons. auto.
Qed.

(** C10. On every column list, for every parser, the year-ago resolution of
    [create_yoy_map.py] and that of [create_sophisticated_map.py] end the
    same way: with the same failure, or with the same pair of latest and
    year-ago column. *)
Theorem C10_scripts_agree (strptime : string → option datetime)
    (columns : list string) :
  create_yoy_map.year_ago strptime columns
  = create_sophisticated_map.year_ago strptime columns.
Proof.
  unfold create_yoy_map.year_ago, create_sophisticated_map.year_ago.
  destruct (last _) as [latest_date|]; [|done].
  destruct (strptime latest_date) as [date_obj|]; [|done].
  assert (∀ ty tm l, create_yoy_map.find_exact strptime ty tm l
                     = create_sophisticated_map.find_exact strptime ty tm l) as Hf.
  { intros ty tm l. induction l as [|col l IH]; simpl; [done|]. by rewrite IH. }
  assert (∀ ty tm l, create_yoy_map.candidates strptime ty tm l
                     = create_sophisticated_map.candidates strptime ty tm l) as Hc.
  { intros ty tm l. induction l as [|col l IH]; simpl; [done|]. by rewrite IH. }
  simpl. by rewrite Hf, Hc.
Qed.

(** ** Percent change and the outlier filters *)

(** The expression of both scripts, on present values with a divisor that is
    not zero. *)
Lemma change_of_finite (cur prior : Qc) :
  prior ≠ 0 →
  f_mul (f_div (f_sub (Fin cur) (Fin prior)) (Fin prior)) (Fin (zq 100))
  = Fin ((cur - prior) / prior * zq 100).
Proof. intros Hp. cbn [f_sub f_div]. by rewrite bool_decide_eq_false_2. Qed.

(** With a zero divisor the result is not a finite number. *)
Lemma change_of_zero (cur : Qc) :
  ∃ v, f_mul (f_div (f_sub (Fin cur) (Fin 0)) (Fin 0)) (Fin (zq 100)) = v ∧
       (v = PosInf ∨ v = NegInf ∨ v = NaN).
Proof.
  cbn [f_sub f_div]. rewrite bool_decide_eq_true_2 by done. unfold signed_inf.
  destruct (bool_decide (cur - 0 = 0)); simpl; [eauto|].
  destruct (bool_decide (0 < cur - 0)); simpl; eauto.
Qed.

Lemma elem_of_with_yoy_change df latest_date year_ago_date x :
  x ∈ create_yoy_map.with_yoy_change df latest_date year_ago_date ↔
  ∃ r, r ∈ df ∧
       cell r latest_date ≠ NaN ∧ cell r year_ago_date ≠ NaN ∧
       x = {| create_yoy_map.src := r;
              create_yoy_map.latest_price := cell r latest_date;
              create_yoy_map.year_ago_price := cell r year_ago_date;
              create_yoy_map.yoy_change :=
                f_mul (f_div (f_sub (cell r latest_date) (cell r year_ago_date))
                             (cell r year_ago_date)) (Fin (zq 100)) |}.
Proof.
  unfold create_yoy_map.with_yoy_change. rewrite list_elem_of_fmap.
  split.
  - intros (r & -> & [Hna Hr]%list_elem_of_filter). exists r.
    apply andb_true_iff in Hna as [H1 H2].
    split_and!; [done| | |done]; intros E; rewrite E in *; done.
  - intros (r & Hr & H1 & H2 & ->). exists r. split; [done|].
    apply list_elem_of_filter. split; [|done].
    destruct (cell r latest_date), (cell r year_ago_date); done.
Qed.

Lemma elem_of_with_price_change df latest_date year_ago_date x :
  x ∈ create_sophisticated_map.with_price_change df latest_date year_ago_date ↔
  ∃ r, r ∈ df ∧
       cell r latest_date ≠ NaN ∧ cell r year_ago_date ≠ NaN ∧
       x = {| create_sophisticated_map.src := r;
              create_sophisticated_map.price_change_pct :=
                f_mul (f_div (f_sub (cell r latest_date) (cell r year_ago_date))
                             (cell r year_ago_date)) (Fin (zq 100)) |}.
Proof.
  unfold create_sophisticated_map.with_price_change. rewrite list_elem_of_fmap.
  split.
  - intros (r & -> & [Hna Hr]%list_elem_of_filter). exists r.
    apply andb_true_iff in Hna as [H1 H2].
    split_and!; [done| | |done]; intros E; rewrite E in *; done.
  - intros (r & Hr & H1 & H2 & ->). exists r. split; [done|].
    apply list_elem_of_filter. split; [|done].
    destruct (cell r latest_date), (cell r year_ago_date); done.
Qed.

(** C5. For a region with both values present and a positive prior value,
    the change column of both scripts holds (current − prior) / prior × 100
    for that region. *)
Theorem C5_percent_change (df : list row) (latest_date year_ago_date : string)
    (r : row) (cur prior : Qc) :
  r ∈ df →
  cells r !! latest_date = Some cur →
  cells r !! year_ago_date = Some prior →
  0 < prior →
  let change := Fin ((cur - prior) / prior * zq 100) in
  (∃ x, x ∈ create_yoy_map.with_yoy_change df latest_date year_ago_date ∧
        create_yoy_map.src x = r ∧ create_yoy_map.yoy_change x = change) ∧
  (∀ x, x ∈ create_yoy_map.with_yoy_change df latest_date year_ago_date →
        create_yoy_map.src x = r → create_yoy_map.yoy_change x = change) ∧
  (∃ x, x ∈ create_sophisticated_map.with_price_change df latest_date year_ago_date ∧
        create_sophisticated_map.src x = r ∧
        create_sophisticated_map.price_change_pct x = change) ∧
  (∀ x, x ∈ create_sophisticated_map.with_price_change df latest_date year_ago_date →
        create_sophisticated_map.src x = r →
        create_sophisticated_map.price_change_pct x = change).
Proof.
  intros Hr Hcur Hprior Hpos change.
  assert (prior ≠ 0) as Hne by (intros ->; by apply Qclt_not_eq in Hpos).
  assert (cell r latest_date = Fin cur) as Hl by (unfold cell; by rewrite Hcur).
  assert (cell r year_ago_date = Fin prior) as Hy by (unfold cell; by rewrite Hprior).
  pose proof (change_of_finite cur prior Hne) as Hch.
  split_and!.
  - eexists. split; [apply elem_of_with_yoy_change; exists r|].
    + split_and!; [done| | |reflexivity]; by rewrite ?Hl, ?Hy.
    + simpl. by rewrite Hl, Hy.
  - intros x (r' & _ & _ & _ & ->)%elem_of_with_yoy_change. simpl.
    intros ->. by rewrite Hl, Hy.
  - eexists. split; [apply elem_of_with_price_change; exists r|].
    + split_and!; [done| | |reflexivity]; by rewrite ?Hl, ?Hy.
    + simpl. by rewrite Hl, Hy.
  - intros x (r' & _ & _ & _ & ->)%elem_of_with_price_change. simpl.
    intros ->. by rewrite Hl, Hy.
Qed.

(** The examples of C5: from 100000 to 120000 is 20 percent, from 100000 to
    80000 is −20 percent. *)
Lemma C5_percent_change_example :
  (0 < zq 100000) ∧
  create_yoy_map.yoy_change <$>
    create_yoy_map.with_yoy_change [example_row 120000 100000] "2024-03-31" "2023-03-31"
  = [Fin (zq 20)] ∧
  create_yoy_map.yoy_change <$>
    create_yoy_map.with_yoy_change [example_row 80000 100000] "2024-03-31" "2023-03-31"
  = [Fin (zq (-20))] ∧
  create_sophisticated_map.price_change_pct <$>
    create_sophisticated_map.with_price_change [example_row 120000 100000]
      "2024-03-31" "2023-03-31"
  = [Fin (zq 20)] ∧
  create_sophisticated_map.price_change_pct <$>
    create_sophisticated_map.with_price_change [example_row 80000 100000]
      "2024-03-31" "2023-03-31"
  = [Fin (zq (-20))].
Proof.
  assert (0 < zq 100000) as Hpos by by vm_compute.
  assert (∀ cur, example_row cur 100000 ∈ [example_row cur 100000]) as Hin
    by (intros; apply list_elem_of_singleton; reflexivity).
  pose proof (C5_percent_change [example_row 120000 100000] "2024-03-31" "2023-03-31"
                (example_row 120000 100000) (zq 120000) (zq 100000)
                (Hin _) eq_refl eq_refl Hpos)
    as ((x1 & Hx1 & _ & Hc1) & _ & (x2 & Hx2 & _ & Hc2) & _).
  pose proof (C5_percent_change [example_row 80000 100000] "2024-03-31" "2023-03-31"
                (example_row 80000 100000) (zq 80000) (zq 100000)
                (Hin _) eq_refl eq_refl Hpos)
    as ((x3 & Hx3 & _ & Hc3) & _ & (x4 & Hx4 & _ & Hc4) & _).
  split_and!; [exact Hpos|..].
  - revert Hx1. match goal with |- _ ∈ ?X → _ =>
      assert (∃ x, X = [x]) as [x ->] by (eexists; reflexivity) end.
    intros ->%list_elem_of_singleton. rewrite list_fmap_singleton, Hc1. qc_eq.
  - revert Hx3. match goal with |- _ ∈ ?X → _ =>
      assert (∃ x, X = [x]) as [x ->] by (eexists; reflexivity) end.
    intros ->%list_elem_of_singleton. rewrite list_fmap_singleton, Hc3. qc_eq.
  - revert Hx2. match goal with |- _ ∈ ?X → _ =>
      assert (∃ x, X = [x]) as [x ->] by (eexists; reflexivity) end.
    intros ->%list_elem_of_singleton. rewrite list_fmap_singleton, Hc2. qc_eq.
  - revert Hx4. match goal with |- _ ∈ ?X → _ =>
      assert (∃ x, X = [x]) as [x ->] by (eexists; reflexivity) end.
    intros ->%list_elem_of_singleton. rewrite list_fmap_singleton, Hc4. qc_eq.
Defined.

(** C6 as stated fails: a region with a negative prior value is kept when
    its computed change is inside the band.  Here the prior value is −100
    and the current value −90, a change of −10 percent. *)
Lemma C6_negative_prior_kept :
  let r := example_row (-90) (-100) in
  cells r !! "2023-03-31"%string = Some (zq (-100)) ∧ zq (-100) ≤ 0 ∧
  create_yoy_map.src <$> create_yoy_map.df_yoy [r] "2024-03-31" "2023-03-31" = [r] ∧
  create_sophisticated_map.src <$>
    create_sophisticated_map.df_analysis [r] "2024-03-31" "2023-03-31" = [r].
Proof. intros r. split_and!; [reflexivity|by vm_compute|reflexivity..]. Qed.

(** C6, amended. A region whose prior value is zero, or whose current or
    prior value is missing, has no row in the result of either script. *)
Theorem C6_zero_or_missing_excluded (df : list row)
    (latest_date year_ago_date : string) (r : row) :
  cells r !! year_ago_date = Some 0 ∨
  cells r !! year_ago_date = None ∨
  cells r !! latest_date = None →
  (∀ x, x ∈ create_yoy_map.df_yoy df latest_date year_ago_date →
        create_yoy_map.src x ≠ r) ∧
  (∀ x, x ∈ create_sophisticated_map.df_analysis df latest_date year_ago_date →
        create_sophisticated_map.src x ≠ r).
Proof.
  intros Hr.
  assert (cell r latest_date = NaN ∨ cell r year_ago_date = NaN ∨
          ∃ cur, cell r latest_date = Fin cur ∧ cell r year_ago_date = Fin 0) as Hc.
  { unfold cell. destruct Hr as [-> | [-> | ->]]; [|by auto..].
    destruct (cells r !! latest_date); eauto. }
  split.
  - intros x [Hband (r' & _ & Hl & Hy & ->)%elem_of_with_yoy_change]%list_elem_of_filter.
    simpl in *. intros ->.
    destruct Hc as [?|[?|(cur & Hcur & Hz)]]; [done..|].
    rewrite Hcur, Hz in Hband.
    destruct (change_of_zero cur) as (v & Hv & Hcases). rewrite Hv in Hband.
    by destruct Hcases as [-> | [-> | ->]].
  - intros x [Hband (r' & _ & Hl & Hy & ->)%elem_of_with_price_change]%list_elem_of_filter.
    simpl in *. intros ->.
    destruct Hc as [?|[?|(cur & Hcur & Hz)]]; [done..|].
    rewrite Hcur, Hz in Hband.
    destruct (change_of_zero cur) as (v & Hv & Hcases). rewrite Hv in Hband.
    by destruct Hcases as [-> | [-> | ->]].
Qed.

Lemma C6_zero_or_missing_excluded_example :
  let r := example_row 120000 0 in
  (cells r !! "2023-03-31"%string = Some 0 ∨
   cells r !! "2023-03-31"%string = None ∨
   cells r !! "2024-03-31"%string = None) ∧
  (∀ x, x ∈ create_yoy_map.df_yoy [r] "2024-03-31" "2023-03-31" →
        create_yoy_map.src x ≠ r) ∧
  (∀ x, x ∈ create_sophisticated_map.df_analysis [r] "2024-03-31" "2023-03-31" →
        create_sophisticated_map.src x ≠ r).
Proof.
  intros r.
  assert (cells r !! "2023-03-31"%string = Some 0 ∨
          cells r !! "2023-03-31"%string = None ∨
          cells r !! "2024-03-31"%string = None) as Hr by (left; reflexivity).
  split; [exact Hr|].
  exact (C6_zero_or_missing_excluded [r] "2024-03-31" "2023-03-31" r Hr).
Defined.

(** The outlier filters, for a finite metric: [create_sophisticated_map.py]
    and [create_price_levels.py] keep the ends of the band,
    [create_yoy_map.py] drops them. *)
Lemma sophisticated_map_band df latest_date year_ago_date x (q : Qc) :
  x ∈ create_sophisticated_map.with_price_change df latest_date year_ago_date →
  create_sophisticated_map.price_change_pct x = Fin q →
  x ∈ create_sophisticated_map.df_analysis df latest_date year_ago_date
  ↔ zq (-50) ≤ q ≤ zq 100.
Proof.
  intros Hx Hq. unfold create_sophisticated_map.df_analysis.
  rewrite list_elem_of_filter, Hq. unfold f_ge. simpl.
  rewrite andb_true_iff, !bool_decide_eq_true. tauto.
Qed.

Lemma price_levels_band df latest_date x (q : Qc) :
  x ∈ create_price_levels.with_price_level df latest_date →
  create_price_levels.price_level x = Fin q →
  x ∈ create_price_levels.df_analysis df latest_date
  ↔ zq 10000 ≤ q ≤ zq 10000000.
Proof.
  intros Hx Hq. unfold create_price_levels.df_analysis.
  rewrite list_elem_of_filter, Hq. unfold f_ge. simpl.
  rewrite andb_true_iff, !bool_decide_eq_true. tauto.
Qed.

Lemma yoy_map_band df latest_date year_ago_date x (q : Qc) :
  x ∈ create_yoy_map.with_yoy_change df latest_date year_ago_date →
  create_yoy_map.yoy_change x = Fin q →
  x ∈ create_yoy_map.df_yoy df latest_date year_ago_date
  ↔ zq (-50) < q < zq 100.
Proof.
  intros Hx Hq. unfold create_yoy_map.df_yoy.
  rewrite list_elem_of_filter, Hq. unfold f_gt. simpl.
  rewrite andb_true_iff, !bool_decide_eq_true. tauto.
Qed.

(** C7 at the ends of the band.  A region that fell from 100000 to 50000 has
    a change of exactly −50 percent, and one that rose from 100000 to 200000
    a change of exactly +100 percent.  [create_sophisticated_map.py] keeps
    both; [create_yoy_map.py] discards both. *)
Theorem C7_yoy_map_discards_band_ends :
  let down := example_row 50000 100000 in
  let up := example_row 200000 100000 in
  create_yoy_map.yoy_change <$>
    create_yoy_map.with_yoy_change [down; up] "2024-03-31" "2023-03-31"
  = [Fin (zq (-50)); Fin (zq 100)] ∧
  create_yoy_map.df_yoy [down; up] "2024-03-31" "2023-03-31" = [] ∧
  create_sophisticated_map.src <$>
    create_sophisticated_map.df_analysis [down; up] "2024-03-31" "2023-03-31"
  = [down; up].
Proof.
  intros down up. split_and!; [|reflexivity..].
  assert (∃ x y, create_yoy_map.with_yoy_change [down; up] "2024-03-31" "2023-03-31"
                 = [x; y] ∧ create_yoy_map.yoy_change x = Fin ((zq 50000 - zq 100000) / zq 100000 * zq 100)
                 ∧ create_yoy_map.yoy_change y = Fin ((zq 200000 - zq 100000) / zq 100000 * zq 100))
    as (x & y & -> & Hx & Hy).
  { do 2 eexists. split; [reflexivity|]. split; apply (change_of_finite _ (zq 100000)); done. }
  simpl. rewrite Hx, Hy. qc_eq.
Qed.

(** ** Polygon membership *)

Example square_contains_centre : isPointInPolygon (pt 5 5) square = true.
Proof. by vm_compute. Qed.

Example square_excludes_outside : isPointInPolygon (pt 15 15) square = false.
Proof. by vm_compute. Qed.

(** C9 as stated fails for a self-intersecting polygon: the point (8,5) lies
    in the right lobe of the bow tie and is reported as contained, and a ZIP
    there is selected. *)
Lemma C9_bow_tie_contains_point :
  let zp := {| z := "10001"; lat := zq 8; lon := zq 5; p := zq 3; pop := 1000 |} in
  let st := {| isLocalMode := true; currentQuintiles := []; currentMinPop := None;
               currentMaxPop := None;
               drawnBoundary :=
                 Some (Polygon {| south := zq 0; west := zq 0;
                                  north := zq 10; east := zq 10 |} bow_tie);
               view := {| south := zq 0; west := zq 0; north := zq 10; east := zq 10 |};
               the_legend := {| shown_quintiles := []; zip_count_line := None |} |} in
  self_intersecting bow_tie = true ∧
  isPointInPolygon (pt 8 5) bow_tie = true ∧
  getZipsInBoundary [zp] st = Returns (Some [zp]).
Proof. intros zp st. split_and!; by vm_compute. Qed.

(** A callback that never raises makes [filter] the filter of lists. *)
Lemma array_filter_returns {A : Type} (callback : A → completion bool)
    (keep : A → bool) (l : list A) :
  (∀ x, x ∈ l → callback x = Returns (keep x)) →
  array_filter callback l = Returns (filter (λ x, keep x = true) l).
Proof.
  induction l as [|x l IH]; intros H; [done|].
  cbn [array_filter]. rewrite (H x) by left.
  rewrite IH by (intros y Hy; apply H; by right).
  destruct (keep x) eqn:Hk.
  - by rewrite filter_cons_True.
  - rewrite filter_cons_False; [done|]. by rewrite Hk.
Qed.

Lemma round64_0 : round64 0 = 0.
Proof. by vm_compute. Qed.

(** [round64] against the arithmetic of the machine.  On the numbers of the
    examples below, the operations of [crosses] give what the primitive
    binary64 operations give, down to the subnormal numbers, and [crosses]
    decides as the same test on primitive numbers. *)
Example round64_agrees_with_binary64 :
  let f := binary64.of_Qc in
  binary64.to_Qc (f (double 3 10)) = Some (double 3 10) ∧
  binary64.to_Qc (f (zq 3) / f (zq 10))%float = Some (fl_div (zq 3) (zq 10)) ∧
  binary64.to_Qc (f (double (-7) 10) + f (zq 1))%float
  = Some (fl_add (double (-7) 10) (zq 1)) ∧
  binary64.to_Qc (f (double 1 1000) - f (double 40123 1000))%float
  = Some (fl_sub (double 1 1000) (double 40123 1000)) ∧
  binary64.to_Qc (f (double 1 (10 ^ 310)) * f (double 1 (10 ^ 10)))%float
  = Some (fl_mul (double 1 (10 ^ 310)) (double 1 (10 ^ 10))).
Proof. intros f. split_and!; f_equal; apply Qc_is_canon; by vm_compute. Qed.

Example crosses_agrees_with_binary64 :
  agrees_with_binary64 point_on_edge two_vertices = true ∧
  agrees_with_binary64 point_on_edge [pt 0 0; pt 1 10; pt 10 0] = true ∧
  agrees_with_binary64 point_south thin_triangle = true ∧
  agrees_with_binary64 (pt 8 5) bow_tie = true ∧
  agrees_with_binary64 (pt 5 5) square = true.
Proof. split_and!; by vm_compute. Qed.

(** Whether a number is a binary64 number is decided by evaluation. *)
Lemma is_binary64_intro (q : Qc) :
  bool_decide (round64 q = q) && Qc_leb (- max_binary64) q && Qc_leb q max_binary64 = true →
  is_binary64 q.
Proof.
  rewrite !andb_true_iff, !Qc_leb_le. intros [[H1 H2] H3].
  split; [exact (bool_decide_eq_true_1 _ H1)|done].
Qed.

Lemma all_binary64_intro (vs : list latlng) :
  forallb (λ v, forallb (λ q, bool_decide (round64 q = q) && Qc_leb (- max_binary64) q
                              && Qc_leb q max_binary64) [ll_lat v; ll_lng v]) vs = true →
  all_binary64 vs.
Proof.
  intros H. apply Forall_forall. intros v Hv.
  rewrite forallb_forall in H. specialize (H v (proj1 (list_elem_of_In _ _) Hv)).
  cbn [forallb] in H. rewrite andb_true_r in H.
  apply andb_true_iff in H as [H1 H2].
  split; by apply is_binary64_intro.
Qed.

Lemma isPointInPolygon_one_vertex (point v : latlng) :
  isPointInPolygon point [v] = false.
Proof.
  unfold isPointInPolygon. simpl. unfold crosses. by rewrite xorb_nilpotent.
Qed.

(** C9, amended. A ring of one vertex contains no point, and a polygon
    boundary drawn with it selects no ZIP.  A ring without vertices does not
    give an empty selection: the bounds test raises a [TypeError] as soon as
    there is a ZIP to test, and the update of the boundary ends with that
    error, the page unchanged.  A ring of two vertices is not empty either:
    the two rounds of the loop compute the crossing latitude of the same
    segment in opposite directions, binary64 rounds them differently, and
    the point (0.3, 3) is reported inside the ring (0,0), (1,10). *)
Theorem C9_degenerate_rings :
  (∀ point v, isPointInPolygon point [v] = false) ∧
  (∀ zipData st b v,
     drawnBoundary st = Some (Polygon b [v]) →
     getZipsInBoundary zipData st = Returns (Some [])) ∧
  (∀ zipData st b,
     drawnBoundary st = Some (Polygon b []) →
     getZipsInBoundary zipData st
     = match zipData with [] => Returns (Some []) | _ :: _ => TypeError end) ∧
  (∀ zipData globalQuintiles st b,
     drawnBoundary st = Some (Polygon b []) →
     isLocalMode st = true → zipData ≠ [] →
     updateBoundaryQuintiles zipData globalQuintiles st = (st, TypeError)) ∧
  (all_binary64 (point_on_edge :: two_vertices) ∧
   isPointInPolygon point_on_edge two_vertices = true ∧
   ∀ code price people,
     let zp := {| z := code; lat := ll_lat point_on_edge; lon := ll_lng point_on_edge;
                  p := price; pop := people |} in
     let b := {| south := zq 0; west := zq 0; north := zq 1; east := zq 10 |} in
     getZipsInBoundary [zp] (example_page true (Some (Polygon b two_vertices)))
     = Returns (Some [zp])).
Proof.
  assert (∀ zipData st b,
    drawnBoundary st = Some (Polygon b []) →
    getZipsInBoundary zipData st
    = match zipData with [] => Returns (Some []) | _ :: _ => TypeError end) as Hempty.
  { intros zipData st b Hst. unfold getZipsInBoundary. rewrite Hst.
    by destruct zipData. }
  split_and!.
  - apply isPointInPolygon_one_vertex.
  - intros zipData st b v Hst. unfold getZipsInBoundary. rewrite Hst.
    rewrite (array_filter_returns _ (λ _, false)).
    + do 2 f_equal. induction zipData as [|zp zipData IH]; [done|].
      by rewrite filter_cons_False.
    + intros zp _. unfold in_boundary, polygon_bounds_contain.
      rewrite isPointInPolygon_one_vertex. by destruct (negb _).
  - exact Hempty.
  - intros zipData gq st b Hst Hloc Hne. unfold updateBoundaryQuintiles.
    rewrite Hloc, (Hempty zipData st b Hst). by destruct zipData.
  - apply all_binary64_intro. by vm_compute.
  - by vm_compute.
  - intros code price people zp b. by vm_compute.
Qed.

Lemma C9_degenerate_rings_example :
  let b := {| south := zq 5; west := zq 5; north := zq 5; east := zq 5 |} in
  let st := example_page true (Some (Polygon b [pt 5 5])) in
  isPointInPolygon (pt 5 5) [pt 5 5] = false ∧
  getZipsInBoundary [example_zip "10001" 5 5 3 1000] st = Returns (Some []).
Proof.
  intros b st.
  destruct C9_degenerate_rings as (Hone & Hsel & _).
  split; [exact (Hone (pt 5 5) (pt 5 5))|].
  exact (Hsel [example_zip "10001" 5 5 3 1000] st b (pt 5 5) eq_refl).
Defined.

(** ** The worked examples in binary64

    The numbers of the examples above do not depend on reading binary64
    arithmetic as exact: the same expressions evaluate to the same numbers
    on primitive floats. *)

Example binary64_change_up : (binary64.change 120000 100000 =? 20)%float = true.
Proof. reflexivity. Qed.

Example binary64_change_down : (binary64.change 80000 100000 =? -20)%float = true.
Proof. reflexivity. Qed.

Example binary64_change_band_ends :
  (binary64.change 50000 100000 =? -50)%float = true ∧
  (binary64.change 200000 100000 =? 100)%float = true.
Proof. split; reflexivity. Qed.

Example binary64_interpolate :
  (binary64.interpolate 0 50 binary64.c0_2 =? 10)%float = true ∧
  (binary64.interpolate 0 50 binary64.c0_4 =? 20)%float = true ∧
  (binary64.interpolate 0 50 binary64.c0_6 =? 30)%float = true ∧
  (binary64.interpolate 0 50 binary64.c0_8 =? 40)%float = true.
Proof. repeat split; reflexivity. Qed.

(** [10 * 0.2], [10 * 0.4], [10 * 0.6] and [10 * 0.8] are the integers 2, 4,
    6 and 8, so that [Math.floor] gives the indices of the example of C1. *)
Example binary64_rank_indices :
  (10 * binary64.c0_2 =? 2)%float = true ∧
  (10 * binary64.c0_4 =? 4)%float = true ∧
  (10 * binary64.c0_6 =? 6)%float = true ∧
  (10 * binary64.c0_8 =? 8)%float = true.
Proof. repeat split; reflexivity. Qed.

(** * Further properties of the client-side script *)

(** Order facts about numbers are proved on the underlying fractions. *)
Ltac qc_to_q :=
  unfold c0_2, c0_4, c0_6, c0_8, dec, zq in *;
  unfold Qcle, Qclt, Qcminus in *;
  unfold Qcopp, Qcplus, Qcmult, Q2Qc in *;
  cbn [this] in *; rewrite ?Qred_correct in *.

Lemma sorted_lookup_le (l : list Qc) (i j : nat) (a b : Qc) :
  StronglySorted Qcle l → (i ≤ j)%nat →
  l !! i = Some a → l !! j = Some b → a ≤ b.
Proof.
  intros Hs. revert i j. induction Hs as [|x l Hl IH Hx]; intros i j Hij Ha Hb.
  { by rewrite lookup_nil in Ha. }
  destruct i as [|i], j as [|j]; simpl in *; [| |lia|].
  - injection Ha as <-. injection Hb as <-. reflexivity.
  - injection Ha as <-. rewrite Forall_forall in Hx. apply Hx.
    by eapply list_elem_of_lookup_2.
  - apply (IH i j); [lia|done..].
Qed.

Lemma quintiles_chain (S : list Qc) (lo hi : Qc) :
  lo ∈ S → (∀ x, x ∈ S → lo ≤ x) →
  hi ∈ S → (∀ x, x ∈ S → x ≤ hi) →
  ∃ q0 q1 q2 q3,
    calculateQuintiles S = [Some q0; Some q1; Some q2; Some q3] ∧
    lo ≤ q0 ∧ q0 ≤ q1 ∧ q1 ≤ q2 ∧ q2 ≤ q3 ∧ q3 ≤ hi.
Proof.
  intros Hlo Hmin Hhi Hmax.
  pose proof (sorted_values_sorted S) as Hs.
  pose proof (stable_sort_perm Qc_leb S) as Hp.
  rewrite (calculateQuintiles_sorted S _ Hs Hp).
  destruct (Nat.ltb_spec (length S) 5) as [Hn|Hn].
  - rewrite (sorted_head_min _ S lo Hs Hp Hlo Hmin).
    pose proof (sorted_last_max _ S hi Hs Hp Hhi Hmax) as Hlast.
    rewrite stable_sort_length in Hlast. rewrite Hlast. simpl.
    do 4 eexists. split; [reflexivity|].
    pose proof (Hmin hi Hhi) as Hle. clear -Hle.
    qc_to_q. repeat split; nra.
  - set (n := length S) in *.
    assert (length (stable_sort Qc_leb S) = n) as Hlen by apply stable_sort_length.
    assert (∀ k, (k < 10)%nat →
              ∃ q, stable_sort Qc_leb S !! (n * k / 10)%nat = Some q ∧ q ∈ S) as Hk.
    { intros k Hk.
      destruct (lookup_lt_is_Some_2 (stable_sort Qc_leb S) (n * k / 10)) as [q Hq].
      - rewrite Hlen. apply Nat.Div0.div_lt_upper_bound. nia.
      - exists q. split; [done|]. rewrite <-Hp. by eapply list_elem_of_lookup_2. }
    destruct (Hk 2%nat) as (q0 & H0 & Hin0); [lia|].
    destruct (Hk 4%nat) as (q1 & H1 & Hin1); [lia|].
    destruct (Hk 6%nat) as (q2 & H2 & Hin2); [lia|].
    destruct (Hk 8%nat) as (q3 & H3 & Hin3); [lia|].
    rewrite H0, H1, H2, H3. exists q0, q1, q2, q3. split; [done|].
    apply Sorted_StronglySorted in Hs; [|apply _].
    assert (∀ a b, (a ≤ b)%nat → (n * a / 10 ≤ n * b / 10)%nat) as Hmono.
    { intros a b Hab. apply Nat.Div0.div_le_mono. nia. }
    split_and!; [by apply Hmin| | | |by apply Hmax].
    + eapply sorted_lookup_le; [exact Hs| |exact H0|exact H1]. apply Hmono. lia.
    + eapply sorted_lookup_le; [exact Hs| |exact H1|exact H2]. apply Hmono. lia.
    + eapply sorted_lookup_le; [exact Hs| |exact H2|exact H3]. apply Hmono. lia.
Qed.

(** X1. The four breakpoints of a list that is not empty are numbers, they
    are in non-decreasing order, and they lie between the least and the
    greatest value of the list. *)
Theorem quintiles_ordered_in_range (S : list Qc) (lo hi : Qc) :
  lo ∈ S → (∀ x, x ∈ S → lo ≤ x) →
  hi ∈ S → (∀ x, x ∈ S → x ≤ hi) →
  ∃ q0 q1 q2 q3,
    calculateQuintiles S = [Some q0; Some q1; Some q2; Some q3] ∧
    lo ≤ q0 ∧ q0 ≤ q1 ∧ q1 ≤ q2 ∧ q2 ≤ q3 ∧ q3 ≤ hi.
Proof. apply quintiles_chain. Qed.

Lemma quintiles_ordered_in_range_example :
  let S := zq <$> [7; -3; 12]%Z in
  zq (-3) ∈ S ∧ zq 12 ∈ S ∧
  ∃ q0 q1 q2 q3,
    calculateQuintiles S = [Some q0; Some q1; Some q2; Some q3] ∧
    zq (-3) ≤ q0 ∧ q0 ≤ q1 ∧ q1 ≤ q2 ∧ q2 ≤ q3 ∧ q3 ≤ zq 12.
Proof.
  intros S.
  assert (zq (-3) ∈ S) as Hlo by (subst S; simpl; repeat constructor).
  assert (zq 12 ∈ S) as Hhi by (subst S; simpl; repeat constructor).
  assert (∀ x, x ∈ S → zq (-3) ≤ x ∧ x ≤ zq 12) as Hb.
  { intros x Hx. subst S. simpl in Hx.
    repeat (apply elem_of_cons in Hx as [->|Hx]); [by vm_compute..|by inv Hx]. }
  split_and!; [exact Hlo|exact Hhi|].
  exact (quintiles_ordered_in_range S (zq (-3)) (zq 12)
           Hlo (λ x Hx, proj1 (Hb x Hx)) Hhi (λ x Hx, proj2 (Hb x Hx))).
Defined.

(** X2. The edges of the engine: on the empty list all four results are
    not numbers, and on a one-element list all four are that element. *)
Theorem quintiles_of_empty_and_singleton :
  calculateQuintiles [] = [None; None; None; None] ∧
  ∀ v : Qc, calculateQuintiles [v] = [Some v; Some v; Some v; Some v].
Proof.
  split; [reflexivity|]. intros v. unfold calculateQuintiles. simpl.
  repeat f_equal; ring.
Qed.

Lemma filter_all {A} (P : A → Prop) `{!∀ x, Decision (P x)} (l : list A) :
  Forall P l → filter P l = l.
Proof.
  induction 1 as [|x l Hx _ IH]; [done|].
  by rewrite filter_cons_True, IH.
Qed.

Lemma filter_none {A} (P : A → Prop) `{!∀ x, Decision (P x)} (l : list A) :
  Forall (λ x, ¬ P x) l → filter P l = [].
Proof.
  induction 1 as [|x l Hx _ IH]; [done|].
  by rewrite filter_cons_False.
Qed.

Lemma sorted_rank_counts (l : list Qc) (i : nat) (q : Qc) :
  StronglySorted Qcle l → l !! i = Some q →
  (length (filter (λ x, (x < q)%Qc) l) ≤ i)%nat ∧
  (i < length (filter (λ x, (x ≤ q)%Qc) l))%nat.
Proof.
  intros Hs Hq.
  pose proof (take_drop_middle l i q Hq) as Hl.
  assert (length (take i l) = i) as Hlen.
  { apply length_take_le. apply lookup_lt_Some in Hq. lia. }
  rewrite <-Hl in Hs. apply StronglySorted_app in Hs as (Hcross & _ & Hs2).
  apply StronglySorted_cons in Hs2 as [Hq2 _].
  rewrite <-Hl, !filter_app, !length_app. split.
  - rewrite (filter_none _ (q :: drop (S i) l)).
    + simpl. pose proof (length_filter (λ x, (x < q)%Qc) (take i l)). lia.
    + rewrite Forall_cons. split.
      * apply Qcle_not_lt. reflexivity.
      * eapply Forall_impl; [exact Hq2|]. intros x. apply Qcle_not_lt.
  - rewrite (filter_all _ (take i l)).
    + rewrite filter_cons_True by reflexivity. simpl. lia.
    + apply Forall_forall. intros x Hx. apply (Hcross x q Hx). left.
Qed.

Lemma rank_counts (S : list Qc) (k : nat) (q : Qc) :
  (5 ≤ length S)%nat → (1 ≤ k ≤ 4)%nat →
  calculateQuintiles S !! (k - 1)%nat = Some (Some q) →
  (length (filter (λ x, (x < q)%Qc) S) ≤ length S * (2 * k) / 10)%nat ∧
  (length S * (2 * k) / 10 < length (filter (λ x, (x ≤ q)%Qc) S))%nat.
Proof.
  intros Hn Hk Hq.
  pose proof (sorted_values_sorted S) as Hs.
  pose proof (stable_sort_perm Qc_leb S) as Hp.
  rewrite (calculateQuintiles_sorted S _ Hs Hp) in Hq.
  destruct (Nat.ltb_spec (length S) 5) as [?|_]; [lia|].
  apply Sorted_StronglySorted in Hs; [|apply _].
  assert (stable_sort Qc_leb S !! (length S * (2 * k) / 10)%nat = Some q) as Hi.
  { destruct k as [|[|[|[|[|k]]]]]; simpl in Hq; try lia; by injection Hq. }
  rewrite <-Hp at 1 4.
  by apply sorted_rank_counts.
Qed.

(** X3. A breakpoint taken by rank splits the list as a quantile does: for
    a list of n >= 5 values and k = 1..4, at most ⌊0.2·k·n⌋ values are below
    the k-th breakpoint, and more than ⌊0.2·k·n⌋ values are at or below it. *)
Theorem rank_breakpoint_counts (S : list Qc) (k : nat) (q : Qc) :
  (5 ≤ length S)%nat → (1 ≤ k ≤ 4)%nat →
  calculateQuintiles S !! (k - 1)%nat = Some (Some q) →
  (length (filter (λ x, (x < q)%Qc) S) ≤ length S * (2 * k) / 10)%nat ∧
  (length S * (2 * k) / 10 < length (filter (λ x, (x ≤ q)%Qc) S))%nat.
Proof. apply rank_counts. Qed.

Lemma rank_breakpoint_counts_example :
  let S := zq <$> [-10; -5; 0; 5; 10; 15; 20; 25; 30; 35]%Z in
  (5 ≤ length S)%nat ∧ (1 ≤ 2 ≤ 4)%nat ∧
  (length (filter (λ x, (x < zq 10)%Qc) S) ≤ 4)%nat ∧
  (4 < length (filter (λ x, (x ≤ zq 10)%Qc) S))%nat.
Proof.
  intros S.
  assert (5 ≤ length S)%nat as Hn by (simpl; lia).
  assert (1 ≤ 2 ≤ 4)%nat as Hk by lia.
  split; [exact Hn|]. split; [exact Hk|].
  exact (rank_breakpoint_counts S 2 (zq 10) Hn Hk eq_refl).
Defined.

(** ** The updates and the events of the page *)

Lemma least_and_greatest (S : list Qc) :
  S ≠ [] →
  ∃ lo hi, lo ∈ S ∧ (∀ x, x ∈ S → lo ≤ x) ∧ hi ∈ S ∧ (∀ x, x ∈ S → x ≤ hi).
Proof.
  induction S as [|a S IH]; [done|]. intros _.
  destruct S as [|b S].
  { exists a, a. split_and!; [by left| |by left|];
      intros x ->%list_elem_of_singleton; reflexivity. }
  destruct IH as (lo & hi & Hlo & Hmin & Hhi & Hmax); [done|].
  exists (if decide (a ≤ lo) then a else lo), (if decide (hi ≤ a) then a else hi).
  split_and!.
  - destruct (decide _); [by left|by right].
  - intros x [->|Hx]%elem_of_cons; destruct (decide (a ≤ lo)) as [Ha|Ha].
    + reflexivity.
    + apply Qcnot_le_lt in Ha. by apply Qclt_le_weak.
    + etrans; [exact Ha|]. by apply Hmin.
    + by apply Hmin.
  - destruct (decide _); [by left|by right].
  - intros x [->|Hx]%elem_of_cons; destruct (decide (hi ≤ a)) as [Ha|Ha].
    + reflexivity.
    + apply Qcnot_le_lt in Ha. by apply Qclt_le_weak.
    + etrans; [|exact Ha]. by apply Hmax.
    + by apply Hmax.
Qed.

Lemma calculateQuintiles_numbers (S : list Qc) :
  S ≠ [] → four_numbers (calculateQuintiles S).
Proof.
  intros (lo & hi & Hlo & Hmin & Hhi & Hmax)%least_and_greatest.
  destruct (quintiles_chain S lo hi Hlo Hmin Hhi Hmax)
    as (q0 & q1 & q2 & q3 & Hq & _).
  by exists q0, q1, q2, q3.
Qed.

Section update_facts.
Context (zipData : list zip_record) (globalQuintiles : list jsnum).

(** The updates write the quintiles, the population range and the legend,
    and nothing else. *)
Lemma set_quintiles_for_frame st zips :
  isLocalMode (set_quintiles_for globalQuintiles st zips) = isLocalMode st ∧
  drawnBoundary (set_quintiles_for globalQuintiles st zips) = drawnBoundary st ∧
  view (set_quintiles_for globalQuintiles st zips) = view st.
Proof. unfold set_quintiles_for. by destruct (_ <? _)%nat. Qed.

Lemma updateLocalQuintiles_frame st :
  isLocalMode (updateLocalQuintiles zipData globalQuintiles st).1 = isLocalMode st ∧
  drawnBoundary (updateLocalQuintiles zipData globalQuintiles st).1 = drawnBoundary st ∧
  view (updateLocalQuintiles zipData globalQuintiles st).1 = view st.
Proof.
  unfold updateLocalQuintiles.
  destruct (isLocalMode st) eqn:E; cbn [negb fst]; [|by rewrite E].
  destruct (set_quintiles_for_frame st (getVisibleZips zipData st)) as (-> & -> & ->).
  done.
Qed.

Lemma updateBoundaryQuintiles_frame st :
  isLocalMode (updateBoundaryQuintiles zipData globalQuintiles st).1 = isLocalMode st ∧
  drawnBoundary (updateBoundaryQuintiles zipData globalQuintiles st).1 = drawnBoundary st ∧
  view (updateBoundaryQuintiles zipData globalQuintiles st).1 = view st.
Proof.
  unfold updateBoundaryQuintiles.
  destruct (isLocalMode st) eqn:E; cbn [negb fst]; [|by rewrite E].
  destruct (getZipsInBoundary zipData st) as [sel|]; cbn [fst]; [|by rewrite E].
  destruct (set_quintiles_for_frame st (default [] sel)) as (-> & -> & ->).
  done.
Qed.

(** The result of an update depends on the page only through the mode, the
    view and the boundary. *)
Lemma set_quintiles_for_ext st1 st2 zips :
  isLocalMode st1 = isLocalMode st2 →
  drawnBoundary st1 = drawnBoundary st2 →
  view st1 = view st2 →
  set_quintiles_for globalQuintiles st1 zips = set_quintiles_for globalQuintiles st2 zips.
Proof.
  intros Hm Hb Hv. unfold set_quintiles_for, updateLegend.
  by rewrite Hm, Hb, Hv.
Qed.

Lemma getVisibleZips_ext st1 st2 :
  view st1 = view st2 → getVisibleZips zipData st1 = getVisibleZips zipData st2.
Proof. unfold getVisibleZips. by intros ->. Qed.

Lemma getZipsInBoundary_ext st1 st2 :
  drawnBoundary st1 = drawnBoundary st2 →
  getZipsInBoundary zipData st1 = getZipsInBoundary zipData st2.
Proof. unfold getZipsInBoundary. by intros ->. Qed.

Lemma updateMarkers_ext st1 st2 :
  isLocalMode st1 = isLocalMode st2 →
  drawnBoundary st1 = drawnBoundary st2 →
  updateMarkers zipData st1 = updateMarkers zipData st2.
Proof.
  intros Hm Hb. unfold updateMarkers.
  by rewrite Hm, Hb, (getZipsInBoundary_ext st1 st2 Hb).
Qed.

(** Without a boundary [updateMarkers] does not raise. *)
Lemma updateMarkers_no_boundary st :
  drawnBoundary st = None → updateMarkers zipData st = Returns tt.
Proof. intros Hb. unfold updateMarkers. by rewrite Hb. Qed.

Lemma set_quintiles_for_numbers st zips :
  four_numbers globalQuintiles →
  four_numbers (currentQuintiles (set_quintiles_for globalQuintiles st zips)).
Proof.
  intros Hg. unfold set_quintiles_for.
  destruct (Nat.ltb_spec (length zips) 2) as [?|Hn]; simpl; [done|].
  apply calculateQuintiles_numbers. destruct zips; [simpl in Hn; lia|done].
Qed.
End update_facts.

(** X4. With fewer than two ZIPs in the selection, an update in local mode
    does not compute breakpoints: it restores the global breakpoints, clears
    the population range, and the legend shows the global breakpoints and
    the ZIP count without the small-sample note. *)
Theorem update_falls_back_to_global (zipData : list zip_record)
    (globalQuintiles : list jsnum) (st : page) :
  isLocalMode st = true →
  (∀ zips, zips = getVisibleZips zipData st → (length zips < 2)%nat →
     let st' := (updateLocalQuintiles zipData globalQuintiles st).1 in
     currentQuintiles st' = globalQuintiles ∧
     currentMinPop st' = None ∧ currentMaxPop st' = None ∧
     the_legend st' = {| shown_quintiles := globalQuintiles;
                         zip_count_line := Some (length zips, false) |}) ∧
  (∀ selection zips,
     getZipsInBoundary zipData st = Returns selection →
     zips = default [] selection → (length zips < 2)%nat →
     let st' := (updateBoundaryQuintiles zipData globalQuintiles st).1 in
     currentQuintiles st' = globalQuintiles ∧
     currentMinPop st' = None ∧ currentMaxPop st' = None ∧
     the_legend st' = {| shown_quintiles := globalQuintiles;
                         zip_count_line := Some (length zips, false) |}).
Proof.
  intros Hloc.
  assert (∀ zips, (length zips < 2)%nat →
    let st' := set_quintiles_for globalQuintiles st zips in
    currentQuintiles st' = globalQuintiles ∧
    currentMinPop st' = None ∧ currentMaxPop st' = None ∧
    the_legend st' = {| shown_quintiles := globalQuintiles;
                        zip_count_line := Some (length zips, false) |}) as Hset.
  { intros zips Hn. unfold set_quintiles_for, updateLegend.
    destruct (Nat.ltb_spec (length zips) 2) as [_|?]; [|lia].
    simpl. by rewrite Hloc. }
  split.
  - intros zips -> Hn. unfold updateLocalQuintiles. rewrite Hloc.
    cbn [negb fst]. by apply Hset.
  - intros selection zips Hsel -> Hn. unfold updateBoundaryQuintiles.
    rewrite Hloc, Hsel. cbn [negb fst]. by apply Hset.
Qed.

Lemma update_falls_back_to_global_example :
  let zipData := [example_zip "10001" 5 5 3 1000; example_zip "94105" 50 50 7 2000] in
  let gq := Some <$> (zq <$> [1; 2; 3; 4]%Z) in
  let st := example_page true None in
  isLocalMode st = true ∧
  (length (getVisibleZips zipData st) < 2)%nat ∧
  currentQuintiles (updateLocalQuintiles zipData gq st).1 = gq.
Proof.
  intros zipData gq st.
  assert (isLocalMode st = true) as Hloc by reflexivity.
  assert (length (getVisibleZips zipData st) < 2)%nat as Hn by (vm_compute; lia).
  split; [exact Hloc|]. split; [exact Hn|].
  exact (proj1 (proj1 (update_falls_back_to_global zipData gq st Hloc) _ eq_refl Hn)).
Defined.

(** X5. Running an update twice gives the same page as running it once. *)
Theorem updates_idempotent (zipData : list zip_record)
    (globalQuintiles : list jsnum) (st : page) :
  updateLocalQuintiles zipData globalQuintiles
    (updateLocalQuintiles zipData globalQuintiles st).1
  = updateLocalQuintiles zipData globalQuintiles st ∧
  updateBoundaryQuintiles zipData globalQuintiles
    (updateBoundaryQuintiles zipData globalQuintiles st).1
  = updateBoundaryQuintiles zipData globalQuintiles st.
Proof.
  split.
  - destruct (updateLocalQuintiles_frame zipData globalQuintiles st) as (Hm & Hb & Hv).
    unfold updateLocalQuintiles at 1. rewrite Hm.
    destruct (isLocalMode st) eqn:Hloc; cbn [negb].
    + rewrite (getVisibleZips_ext zipData _ st Hv).
      rewrite (set_quintiles_for_ext globalQuintiles _ st _ (eq_trans Hm (eq_sym Hloc)) Hb Hv).
      unfold updateLocalQuintiles. by rewrite Hloc.
    + unfold updateLocalQuintiles. by rewrite Hloc.
  - destruct (updateBoundaryQuintiles_frame zipData globalQuintiles st) as (Hm & Hb & Hv).
    unfold updateBoundaryQuintiles at 1. rewrite Hm.
    destruct (isLocalMode st) eqn:Hloc; cbn [negb].
    + rewrite (getZipsInBoundary_ext zipData _ st Hb).
      unfold updateBoundaryQuintiles. rewrite Hloc. cbn [negb].
      destruct (getZipsInBoundary zipData st) as [selection|] eqn:Hsel; [|done].
      unfold updateBoundaryQuintiles in Hm, Hb, Hv.
      rewrite Hloc, Hsel in Hm, Hb, Hv. cbn [negb fst] in Hm, Hb, Hv.
      by rewrite (set_quintiles_for_ext globalQuintiles _ st _ (eq_trans Hm (eq_sym Hloc)) Hb Hv).
    + unfold updateBoundaryQuintiles. by rewrite Hloc.
Qed.

Section event_facts.
Context (zipData : list zip_record) (globalQuintiles : list jsnum).

Lemma updateLocalQuintiles_ok st :
  isLocalMode st = true →
  page_ok globalQuintiles (updateLocalQuintiles zipData globalQuintiles st).1.
Proof.
  intros Hloc.
  destruct (updateLocalQuintiles_frame zipData globalQuintiles st) as (Hm & _ & _).
  split.
  - rewrite Hm, Hloc. done.
  - intros Hg. unfold updateLocalQuintiles. rewrite Hloc. cbn [negb fst].
    by apply set_quintiles_for_numbers.
Qed.

(** When [getZipsInBoundary] raises, the page is as it was. *)
Lemma updateBoundaryQuintiles_ok st :
  page_ok globalQuintiles st →
  isLocalMode st = true →
  page_ok globalQuintiles (updateBoundaryQuintiles zipData globalQuintiles st).1.
Proof.
  intros Hok Hloc.
  destruct (updateBoundaryQuintiles_frame zipData globalQuintiles st) as (Hm & _ & _).
  split.
  - rewrite Hm, Hloc. done.
  - intros Hg. unfold updateBoundaryQuintiles. rewrite Hloc. cbn [negb].
    destruct (getZipsInBoundary zipData st) as [selection|]; cbn [fst].
    + by apply set_quintiles_for_numbers.
    + by apply (ok_numbers _ _ Hok).
Qed.

Lemma toggleView_ok st :
  page_ok globalQuintiles (toggleView zipData globalQuintiles st).1.
Proof.
  unfold toggleView. cbn [isLocalMode].
  destruct (isLocalMode st) eqn:Hloc; cbn [negb fst].
  - split; simpl; done.
  - by apply updateLocalQuintiles_ok.
Qed.

Lemma with_view_ok b st :
  page_ok globalQuintiles st → page_ok globalQuintiles (with_view b st).
Proof. intros [Hg Hn]. split; [exact Hg|exact Hn]. Qed.

Lemma handle_ok be st :
  page_ok globalQuintiles st →
  page_ok globalQuintiles (handle zipData globalQuintiles be st).1.
Proof.
  intros Hok. destruct be as [b e].
  apply (with_view_ok b) in Hok.
  unfold handle. cbn [fst snd].
  set (st1 := with_view b st) in *. clearbody st1.
  destruct e as [| |lyr|].
  - apply toggleView_ok.
  - unfold on_move_settled. destruct (isLocalMode st1) eqn:Hloc.
    + case_bool_decide as Hb.
      * by apply updateBoundaryQuintiles_ok.
      * by apply updateLocalQuintiles_ok.
    + exact Hok.
  - unfold on_draw_created. cbn [isLocalMode].
    destruct (isLocalMode st1) eqn:Hloc; cbn [negb].
    + apply updateBoundaryQuintiles_ok; [|done].
      destruct Hok as [Hg Hn]. split; [done|exact Hn].
    + apply toggleView_ok.
  - unfold clearDrawnBoundary.
    destruct (drawnBoundary st1) as [lyr|] eqn:Hb; [|exact Hok].
    cbn [isLocalMode]. destruct (isLocalMode st1) eqn:Hloc.
    + by apply updateLocalQuintiles_ok.
    + destruct Hok as [Hg Hn]. split; cbn [fst]; [intros _; by apply Hg|exact Hn].
Qed.

Lemma run_ok es st :
  page_ok globalQuintiles st →
  page_ok globalQuintiles (run zipData globalQuintiles es st).
Proof.
  revert st. induction es as [|be es IH]; intros st Hok; [done|].
  cbn [run foldl]. apply IH. by apply handle_ok.
Qed.

Lemma initial_page_ok b lg : page_ok globalQuintiles (initial_page globalQuintiles b lg).
Proof. split; simpl; done. Qed.
End event_facts.

(** X6. Whatever the user does (toggling the view, moving the map, drawing
    and clearing boundaries, in any order), whenever the page is in global
    mode the breakpoints in use are the global ones and no population range
    is set. *)
Theorem global_mode_uses_global_quintiles (zipData : list zip_record)
    (globalQuintiles : list jsnum) (b : bounds) (lg : legend)
    (es : list (bounds * event)) :
  let st := run zipData globalQuintiles es (initial_page globalQuintiles b lg) in
  isLocalMode st = false →
  currentQuintiles st = globalQuintiles ∧
  currentMinPop st = None ∧ currentMaxPop st = None.
Proof.
  intros st. subst st. apply ok_global, run_ok, initial_page_ok.
Qed.


Lemma global_mode_uses_global_quintiles_example :
  let zipData := [example_zip "10001" 5 5 3 1000; example_zip "10002" 6 6 7 2000] in
  let gq := Some <$> (zq <$> [1; 2; 3; 4]%Z) in
  let lg := {| shown_quintiles := gq; zip_count_line := None |} in
  let es := [(example_view, ToggleView); (example_view, MoveSettled);
             (example_view, ToggleView)] in
  let st := run zipData gq es (initial_page gq example_view lg) in
  isLocalMode st = false ∧ currentQuintiles st = gq.
Proof.
  intros zipData gq lg es st.
  assert (isLocalMode st = false) as Hloc by reflexivity.
  split; [exact Hloc|].
  exact (proj1 (global_mode_uses_global_quintiles zipData gq example_view lg es Hloc)).
Defined.


Lemma updateLocalQuintiles_ext (zipData : list zip_record)
    (globalQuintiles : list jsnum) (st1 st2 : page) :
  isLocalMode st1 = true → isLocalMode st2 = true →
  drawnBoundary st1 = drawnBoundary st2 →
  view st1 = view st2 →
  updateLocalQuintiles zipData globalQuintiles st1
  = updateLocalQuintiles zipData globalQuintiles st2.
Proof.
  intros H1 H2 Hb Hv. unfold updateLocalQuintiles. rewrite H1, H2. cbn [negb].
  rewrite (getVisibleZips_ext zipData st1 st2 Hv).
  by rewrite (set_quintiles_for_ext globalQuintiles st1 st2 _ (eq_trans H1 (eq_sym H2)) Hb Hv).
Qed.

Lemma clearDrawnBoundary_local (zipData : list zip_record)
    (globalQuintiles : list jsnum) (s t : page) :
  isLocalMode s = true → is_Some (drawnBoundary s) →
  isLocalMode t = true → drawnBoundary t = None → view t = view s →
  clearDrawnBoundary zipData globalQuintiles s
  = updateLocalQuintiles zipData globalQuintiles t.
Proof.
  intros Hs [lyr Hlyr] Ht Hb Hv. unfold clearDrawnBoundary.
  rewrite Hlyr. cbn [isLocalMode]. rewrite Hs.
  apply updateLocalQuintiles_ext; simpl; done.
Qed.

(** X8. Drawing a boundary and then clearing it leaves the page as a
    switch to local view would: in local mode, without a boundary, with the
    breakpoints of the ZIPs in view.  This holds from either mode, so a
    boundary drawn in global mode and cleared does not return the page to
    global mode. *)
Theorem draw_then_clear (zipData : list zip_record)
    (globalQuintiles : list jsnum) (lyr : layer) (st : page) :
  clearDrawnBoundary zipData globalQuintiles
    (on_draw_created zipData globalQuintiles lyr st).1
  = updateLocalQuintiles zipData globalQuintiles
      {| isLocalMode := true;
         currentQuintiles := currentQuintiles st;
         currentMinPop := currentMinPop st;
         currentMaxPop := currentMaxPop st;
         drawnBoundary := None;
         view := view st;
         the_legend := the_legend st |}.
Proof.
  unfold on_draw_created.
  set (st1 := {| isLocalMode := isLocalMode st; drawnBoundary := Some lyr |}).
  destruct (isLocalMode st1) eqn:Hloc; cbn [negb].
  - destruct (updateBoundaryQuintiles_frame zipData globalQuintiles st1)
      as (Hm & Hb & Hv).
    apply clearDrawnBoundary_local.
    + by rewrite Hm.
    + rewrite Hb. by eexists.
    + done.
    + done.
    + by rewrite Hv.
  - unfold toggleView. rewrite Hloc. cbn [negb isLocalMode].
    match goal with |- clearDrawnBoundary _ _ (updateLocalQuintiles _ _ ?s).1 = _ =>
      destruct (updateLocalQuintiles_frame zipData globalQuintiles s)
        as (Hm & Hb & Hv)
    end.
    apply clearDrawnBoundary_local.
    + by rewrite Hm.
    + rewrite Hb. by eexists.
    + done.
    + done.
    + by rewrite Hv.
Qed.

Lemma math_min_spec (l : list Z) :
  l ≠ [] → ∃ m, math_min l = Some m ∧ m ∈ l ∧ ∀ x, x ∈ l → (m ≤ x)%Z.
Proof.
  destruct l as [|a l]; [done|]. intros _. simpl. eexists. split; [done|].
  induction l as [|b l IH]; simpl.
  - split; [by left|]. intros x ->%list_elem_of_singleton. lia.
  - destruct IH as [Hin Hle]. split.
    + destruct (Z.min_spec b (foldr Z.min a l)) as [[_ ->]|[_ ->]].
      * right. left.
      * apply elem_of_cons in Hin as [->|Hin]; [left|right; by right].
    + intros x Hx. assert (x = b ∨ x ∈ a :: l) as [->|Hx'].
      { apply elem_of_cons in Hx as [->|Hx]; [right; left|].
        apply elem_of_cons in Hx as [->|Hx]; [by left|right; by right]. }
      * lia.
      * specialize (Hle x Hx'). lia.
Qed.

Lemma math_max_spec (l : list Z) :
  l ≠ [] → ∃ m, math_max l = Some m ∧ m ∈ l ∧ ∀ x, x ∈ l → (x ≤ m)%Z.
Proof.
  destruct l as [|a l]; [done|]. intros _. simpl. eexists. split; [done|].
  induction l as [|b l IH]; simpl.
  - split; [by left|]. intros x ->%list_elem_of_singleton. lia.
  - destruct IH as [Hin Hle]. split.
    + destruct (Z.max_spec b (foldr Z.max a l)) as [[_ ->]|[_ ->]].
      * apply elem_of_cons in Hin as [->|Hin]; [left|right; by right].
      * right. left.
    + intros x Hx. assert (x = b ∨ x ∈ a :: l) as [->|Hx'].
      { apply elem_of_cons in Hx as [->|Hx]; [right; left|].
        apply elem_of_cons in Hx as [->|Hx]; [by left|right; by right]. }
      * lia.
      * specialize (Hle x Hx'). lia.
Qed.

Lemma set_quintiles_for_population (globalQuintiles : list jsnum) (st : page)
    (zips : list zip_record) :
  (2 ≤ length zips)%nat →
  let st' := set_quintiles_for globalQuintiles st zips in
  ∃ lo hi,
    currentMinPop st' = Some lo ∧ currentMaxPop st' = Some hi ∧
    lo ∈ pop <$> zips ∧ hi ∈ pop <$> zips ∧
    ∀ zp, zp ∈ zips → (lo ≤ pop zp ≤ hi)%Z.
Proof.
  intros Hn. unfold set_quintiles_for.
  destruct (Nat.ltb_spec (length zips) 2) as [?|_]; [lia|]. simpl.
  assert (pop <$> zips ≠ []) as Hne by (destruct zips; [simpl in Hn; lia|done]).
  destruct (math_min_spec _ Hne) as (lo & -> & Hlo & Hmin).
  destruct (math_max_spec _ Hne) as (hi & -> & Hhi & Hmax).
  exists lo, hi. split_and!; [done..|].
  intros zp Hzp. split; [apply Hmin|apply Hmax]; by apply list_elem_of_fmap_2.
Qed.

(** X9. After an update in local mode on a selection of at least two ZIPs,
    the population range is set to the least and the greatest population of
    the selection: both are populations of selected ZIPs, and every selected
    ZIP lies between them. *)
Theorem population_range_brackets_selection (zipData : list zip_record)
    (globalQuintiles : list jsnum) (st : page) :
  isLocalMode st = true →
  (let zips := getVisibleZips zipData st in
   let st' := (updateLocalQuintiles zipData globalQuintiles st).1 in
   (2 ≤ length zips)%nat →
   ∃ lo hi,
     currentMinPop st' = Some lo ∧ currentMaxPop st' = Some hi ∧
     lo ∈ pop <$> zips ∧ hi ∈ pop <$> zips ∧
     ∀ zp, zp ∈ zips → (lo ≤ pop zp ≤ hi)%Z) ∧
  (∀ selection,
   getZipsInBoundary zipData st = Returns selection →
   let zips := default [] selection in
   let st' := (updateBoundaryQuintiles zipData globalQuintiles st).1 in
   (2 ≤ length zips)%nat →
   ∃ lo hi,
     currentMinPop st' = Some lo ∧ currentMaxPop st' = Some hi ∧
     lo ∈ pop <$> zips ∧ hi ∈ pop <$> zips ∧
     ∀ zp, zp ∈ zips → (lo ≤ pop zp ≤ hi)%Z).
Proof.
  intros Hloc. split.
  - intros zips st' Hn; subst st'.
    unfold updateLocalQuintiles. rewrite Hloc. cbn [negb fst].
    by apply set_quintiles_for_population.
  - intros selection Hsel zips st' Hn; subst st'.
    unfold updateBoundaryQuintiles. rewrite Hloc, Hsel. cbn [negb fst].
    by apply set_quintiles_for_population.
Qed.

Lemma population_range_brackets_selection_example :
  let zipData := [example_zip "10001" 5 5 3 1000; example_zip "10002" 6 6 7 2500;
                  example_zip "94105" 50 50 1 900] in
  let st := example_page true None in
  let st' := (updateLocalQuintiles zipData [] st).1 in
  isLocalMode st = true ∧
  (2 ≤ length (getVisibleZips zipData st))%nat ∧
  ∃ lo hi,
    currentMinPop st' = Some lo ∧ currentMaxPop st' = Some hi ∧
    lo ∈ pop <$> getVisibleZips zipData st ∧ hi ∈ pop <$> getVisibleZips zipData st ∧
    ∀ zp, zp ∈ getVisibleZips zipData st → (lo ≤ pop zp ≤ hi)%Z.
Proof.
  intros zipData st st'.
  assert (isLocalMode st = true) as Hloc by reflexivity.
  assert (2 ≤ length (getVisibleZips zipData st))%nat as Hn by (vm_compute; lia).
  split; [exact Hloc|]. split; [exact Hn|].
  exact (proj1 (population_range_brackets_selection zipData [] st Hloc) Hn).
Defined.

Lemma relative_position_bounds (a b : Z) :
  (0 ≤ a ≤ b)%Z → (0 < b)%Z → 0 ≤ zq a / zq b ∧ zq a / zq b ≤ 1.
Proof.
  intros Ha Hb.
  assert (0 < inject_Z b)%Q as Hb' by (change 0%Q with (inject_Z 0); by rewrite <-Zlt_Qlt).
  assert (0 <= inject_Z a)%Q as Ha0 by (change 0%Q with (inject_Z 0); rewrite <-Zle_Qle; lia).
  assert (inject_Z a <= inject_Z b)%Q as Hab by (rewrite <-Zle_Qle; lia).
  unfold Qcle, Qcdiv, Qcmult, Qcinv, zq, Q2Qc. cbn [this].
  rewrite !Qred_correct. change (this 1) with 1%Q. change (this 0) with 0%Q.
  split.
  - apply Qle_shift_div_l; [done|]. by rewrite Qmult_0_l.
  - apply Qle_shift_div_r; [done|]. by rewrite Qmult_1_l.
Qed.

(** X10. In local mode with a population range set, the marker of a ZIP
    whose population lies within the range gets a radius between 5 and 28.6,
    whatever the zoom level and the base radius. *)
Theorem local_radius_bounds (st : page) (zoom r : Qc) (zp : zip_record) (lo hi : Z) :
  isLocalMode st = true →
  currentMinPop st = Some lo → currentMaxPop st = Some hi →
  (lo < hi)%Z → (lo ≤ pop zp ≤ hi)%Z →
  zq 5 ≤ marker_radius st zoom r zp ∧ marker_radius st zoom r zp ≤ dec 286 10.
Proof.
  intros Hloc Hlo Hhi Hlt Hpop. unfold marker_radius.
  rewrite Hlo, Hhi, Hloc. simpl. rewrite bool_decide_eq_true_2 by done.
  unfold local_radius.
  destruct (relative_position_bounds (pop zp - lo) (hi - lo)) as [H0 H1]; [lia..|].
  set (rel := zq (pop zp - lo) / zq (hi - lo)) in *. clearbody rel.
  destruct (Qc_leb zoom (zq 3)); [|destruct (Qc_leb zoom (zq 5));
    [|destruct (Qc_leb (zq 9) zoom)]];
    clear -H0 H1; qc_to_q; change (this 1) with 1%Q in *; change (this 0) with 0%Q in *;
    unfold inject_Z in *; split; lra.
Qed.

Lemma local_radius_bounds_example :
  let zp := example_zip "10001" 5 5 3 1700 in
  let st := {| isLocalMode := true; currentQuintiles := []; currentMinPop := Some 1000%Z;
               currentMaxPop := Some 2500%Z; drawnBoundary := None; view := example_view;
               the_legend := {| shown_quintiles := []; zip_count_line := None |} |} in
  (1000 < 2500)%Z ∧ (1000 ≤ pop zp ≤ 2500)%Z ∧
  zq 5 ≤ marker_radius st (zq 4) (zq 3) zp ∧ marker_radius st (zq 4) (zq 3) zp ≤ dec 286 10.
Proof.
  intros zp st.
  assert (1000 < 2500)%Z as Hlt by lia.
  assert (1000 ≤ pop zp ≤ 2500)%Z as Hpop by (simpl; lia).
  split; [exact Hlt|]. split; [exact Hpop|].
  exact (local_radius_bounds st (zq 4) (zq 3) zp 1000 2500 eq_refl eq_refl eq_refl Hlt Hpop).
Defined.

(** X11. The fill opacity of a marker is between 0.3 and 0.8 for every zoom
    level and population. *)
Theorem fill_opacity_bounds (zoom : Qc) (zp : zip_record) :
  dec 3 10 ≤ marker_fillOpacity zoom zp ∧ marker_fillOpacity zoom zp ≤ dec 8 10.
Proof.
  unfold marker_fillOpacity.
  repeat match goal with
         | |- context [if ?b then _ else _] => destruct b
         end; split; by vm_compute.
Qed.

(** X12. Outside local sizing the radius is the base radius times a zoom
    factor between 0.02 and 1.5: for a base radius that is not negative,
    the marker radius lies between 0.02 and 1.5 times the base radius. *)
Theorem global_radius_bounds (st : page) (zoom r : Qc) (zp : zip_record) :
  isLocalMode st = false → 0 ≤ r →
  r * dec 2 100 ≤ marker_radius st zoom r zp ∧ marker_radius st zoom r zp ≤ r * dec 15 10.
Proof.
  intros Hloc Hr.
  assert (marker_radius st zoom r zp = global_radius zoom r) as ->.
  { unfold marker_radius. rewrite Hloc.
    by destruct (currentMinPop st), (currentMaxPop st). }
  unfold global_radius.
  repeat match goal with
         | |- context [if ?b then _ else _] => destruct b
         end; clear -Hr; qc_to_q; change (this 0) with 0%Q in *;
    unfold inject_Z in *; split; lra.
Qed.

Lemma global_radius_bounds_example :
  let st := example_page false None in
  let zp := example_zip "10001" 5 5 3 1700 in
  0 ≤ zq 6 ∧
  zq 6 * dec 2 100 ≤ marker_radius st (zq 4) (zq 6) zp ∧
  marker_radius st (zq 4) (zq 6) zp ≤ zq 6 * dec 15 10.
Proof.
  intros st zp.
  assert (0 ≤ zq 6) as Hr by by vm_compute.
  split; [exact Hr|].
  exact (global_radius_bounds st (zq 4) (zq 6) zp eq_refl Hr).
Defined.

Lemma length_filter_fmap {A B} (f : A → B) (P : B → Prop) `{!∀ y, Decision (P y)}
    (l : list A) :
  length (filter (λ x, P (f x)) l) = length (filter P (f <$> l)).
Proof.
  induction l as [|x l IH]; [done|]. simpl.
  rewrite !filter_cons. destruct (decide (P (f x))); simpl; by rewrite IH.
Qed.

Lemma length_filter_complement {A} (P : A → Prop) `{!∀ x, Decision (P x)} (l : list A) :
  (length (filter P l) + length (filter (λ x, ¬ P x) l) = length l)%nat.
Proof. by rewrite <-length_app, filter_app_complement. Qed.

Lemma length_filter_le {A} (P Q : A → Prop) `{!∀ x, Decision (P x)}
    `{!∀ x, Decision (Q x)} (l : list A) :
  (∀ x, P x → Q x) → (length (filter P l) ≤ length (filter Q l))%nat.
Proof.
  intros HPQ. induction l as [|x l IH]; [done|].
  rewrite !filter_cons. destruct (decide (P x)) as [HP|HP].
  - rewrite decide_True by auto. simpl. lia.
  - destruct (decide (Q x)); simpl; lia.
Qed.

Lemma getColor_lowest (st : page) (q0 q1 q2 q3 v : Qc) :
  currentQuintiles st = [Some q0; Some q1; Some q2; Some q3] →
  v ≤ q0 → getColor st v = "#000000"%string.
Proof.
  intros Hq Hv. unfold getColor, quintile. rewrite Hq. simpl.
  unfold Qc_leb. by rewrite bool_decide_eq_true_2.
Qed.

Lemma getColor_highest (st : page) (q0 q1 q2 q3 v : Qc) :
  currentQuintiles st = [Some q0; Some q1; Some q2; Some q3] →
  getColor st v = "#0bb4ff"%string → ¬ v ≤ q3.
Proof.
  intros Hq. unfold getColor, quintile. rewrite Hq. simpl. unfold Qc_leb.
  repeat case_bool_decide; try done.
  destruct (_ && _); done.
Qed.

(** X13. When an update in local mode finds n >= 5 ZIPs in view, the
    colours it gives them follow the ranks: more than ⌊0.2·n⌋ of them get
    the lowest colour, and fewer than n − ⌊0.8·n⌋ get the highest colour. *)
Theorem colours_follow_ranks (zipData : list zip_record)
    (globalQuintiles : list jsnum) (st : page) :
  isLocalMode st = true →
  let zips := getVisibleZips zipData st in
  let st' := (updateLocalQuintiles zipData globalQuintiles st).1 in
  (5 ≤ length zips)%nat →
  (length zips * 2 / 10
   < length (filter (λ zp, getColor st' (p zp) = "#000000"%string) zips))%nat ∧
  (length (filter (λ zp, getColor st' (p zp) = "#0bb4ff"%string) zips)
   + length zips * 8 / 10 < length zips)%nat.
Proof.
  intros Hloc zips st' Hn.
  set (S := p <$> zips).
  assert (length S = length zips) as HS by apply length_fmap.
  assert (currentQuintiles st' = calculateQuintiles S) as Hcur.
  { subst st'. unfold updateLocalQuintiles. rewrite Hloc. cbn [negb fst].
    unfold set_quintiles_for. fold zips.
    destruct (Nat.ltb_spec (length zips) 2) as [?|_]; [lia|]. done. }
  destruct (calculateQuintiles_numbers S) as (q0 & q1 & q2 & q3 & Hq).
  { intros E. rewrite E in HS. simpl in HS. lia. }
  rewrite Hq in Hcur.
  destruct (rank_counts S 1 q0) as [_ H0]; [lia|lia|by rewrite Hq|].
  destruct (rank_counts S 4 q3) as [_ H3]; [lia|lia|by rewrite Hq|].
  rewrite HS in H0, H3.
  change (2 * 1)%nat with 2%nat in H0. change (2 * 4)%nat with 8%nat in H3.
  clearbody st'. subst S. split.
  - eapply Nat.lt_le_trans; [exact H0|].
    rewrite <-(length_filter_fmap p (λ x, x ≤ q0)).
    apply length_filter_le. intros zp. by apply getColor_lowest with q1 q2 q3.
  - pose proof (length_filter_complement (λ x, x ≤ q3) (p <$> zips)) as Hc.
    rewrite HS in Hc.
    assert (length (filter (λ zp, getColor st' (p zp) = "#0bb4ff"%string) zips)
            ≤ length (filter (λ x, ¬ (x ≤ q3)%Qc) (p <$> zips)))%nat as Hle.
    { rewrite <-(length_filter_fmap p (λ x, ¬ x ≤ q3)).
      apply length_filter_le. intros zp. by apply getColor_highest with q0 q1 q2. }
    lia.
Qed.

Lemma colours_follow_ranks_example :
  let zipData := [example_zip "a" 1 1 (-4) 10; example_zip "b" 2 2 0 10;
                  example_zip "c" 3 3 2 10; example_zip "d" 4 4 5 10;
                  example_zip "e" 5 5 9 10; example_zip "f" 6 6 11 10] in
  let st := example_page true None in
  let zips := getVisibleZips zipData st in
  let st' := (updateLocalQuintiles zipData [] st).1 in
  (5 ≤ length zips)%nat ∧
  (length zips * 2 / 10
   < length (filter (λ zp, getColor st' (p zp) = "#000000"%string) zips))%nat ∧
  (length (filter (λ zp, getColor st' (p zp) = "#0bb4ff"%string) zips)
   + length zips * 8 / 10 < length zips)%nat.
Proof.
  intros zipData st zips st'.
  assert (5 ≤ length zips)%nat as Hn by (vm_compute; lia).
  split; [exact Hn|].
  exact (colours_follow_ranks zipData [] st eq_refl Hn).
Defined.

(** ** More on polygon membership *)

Lemma pip_loop_parity (point vj : latlng) (rest : list latlng) (inside : bool) :
  pip_loop point vj rest inside = xorb inside (path_parity point vj rest).
Proof.
  revert vj inside. induction rest as [|vi rest IH]; intros vj inside; simpl.
  - by destruct inside.
  - rewrite IH. by destruct (crosses point vi vj), inside, (path_parity point vi rest).
Qed.

Lemma isPointInPolygon_parity (point : latlng) (latlngs : list latlng) :
  isPointInPolygon point latlngs
  = match last latlngs with
    | Some vlast => path_parity point vlast latlngs
    | None => false
    end.
Proof.
  unfold isPointInPolygon. destruct (last latlngs); [|done].
  by rewrite pip_loop_parity.
Qed.

Lemma path_parity_app (point vj : latlng) (l1 l2 : list latlng) :
  path_parity point vj (l1 ++ l2)
  = xorb (path_parity point vj l1)
         (path_parity point (default vj (last l1)) l2).
Proof.
  revert vj. induction l1 as [|v l1 IH]; intros vj; [done|].
  assert (default vj (last (v :: l1)) = default v (last l1)) as ->.
  { rewrite last_cons. by destruct (last l1). }
  cbn [app path_parity]. by rewrite IH, xorb_assoc.
Qed.

Lemma pip_rotate (point v : latlng) (l : list latlng) :
  isPointInPolygon point (l ++ [v]) = isPointInPolygon point (v :: l).
Proof.
  rewrite !isPointInPolygon_parity. rewrite last_snoc, last_cons.
  rewrite path_parity_app. cbn [path_parity].
  rewrite xorb_false_r.
  assert (match last l with Some y => Some y | None => Some v end
          = Some (default v (last l))) as -> by by destruct (last l).
  apply xorb_comm.
Qed.

(** X14. The result does not depend on the vertex at which the ring
    starts: moving the first vertex to the end gives the same answer. *)
Theorem isPointInPolygon_rotate (point v : latlng) (l : list latlng) :
  isPointInPolygon point (l ++ [v]) = isPointInPolygon point (v :: l).
Proof. apply pip_rotate. Qed.




Lemma crosses_same_lng (point vi vj : latlng) :
  ll_lng vi = ll_lng vj → crosses point vi vj = false.
Proof. intros E. unfold crosses. by rewrite E, xorb_nilpotent. Qed.

(** For an edge along a parallel the crossing latitude is computed without
    error: [0 * t / u + xi] is [xi]. *)
Lemma crosses_same_lat (point vi vj : latlng) :
  ll_lat vi = ll_lat vj → is_binary64 (ll_lat vi) →
  crosses point vi vj
  = xorb (bool_decide (ll_lng point < ll_lng vi)) (bool_decide (ll_lng point < ll_lng vj))
    && bool_decide (ll_lat point < ll_lat vi).
Proof.
  intros E [Hxi _]. unfold crosses, fl_add, fl_div, fl_mul, fl_sub. rewrite <-E.
  replace (ll_lat vi - ll_lat vi) with 0 by ring. rewrite round64_0.
  replace (0 * round64 (ll_lng point - ll_lng vi)) with 0 by ring. rewrite round64_0.
  replace (0 / round64 (ll_lng vj - ll_lng vi)) with 0 by (unfold Qcdiv; ring).
  rewrite round64_0.
  replace (0 + ll_lat vi) with (ll_lat vi) by ring.
  by rewrite Hxi.
Qed.

(** X16. For the ring with corners (a,c), (a,d), (b,d), (b,c), where a < b
    are binary64 numbers and c < d, a point (x,y) is reported inside exactly
    when a <= x < b and c <= y < d: the lower edges belong to the rectangle,
    the upper edges do not. *)
Theorem isPointInPolygon_rectangle (a b c d x y : Qc) :
  is_binary64 a → is_binary64 b →
  a < b → c < d →
  isPointInPolygon (LatLng x y) (rectangle_ring a b c d) = true
  ↔ (a ≤ x ∧ x < b) ∧ (c ≤ y ∧ y < d).
Proof.
  intros Ha Hb Hab Hcd. unfold isPointInPolygon, rectangle_ring.
  cbn [last pip_loop].
  rewrite (crosses_same_lng _ (LatLng a c) (LatLng b c)) by done.
  rewrite (crosses_same_lat _ (LatLng a d) (LatLng a c)) by done.
  rewrite (crosses_same_lng _ (LatLng b d) (LatLng a d)) by done.
  rewrite (crosses_same_lat _ (LatLng b c) (LatLng b d)) by done.
  cbn [ll_lat ll_lng].
  destruct (decide (y < d)) as [Hyd|Hyd], (decide (y < c)) as [Hyc|Hyc],
           (decide (x < a)) as [Hxa|Hxa], (decide (x < b)) as [Hxb|Hxb];
    rewrite ?(bool_decide_eq_true_2 _ Hyd), ?(bool_decide_eq_false_2 _ Hyd),
            ?(bool_decide_eq_true_2 _ Hyc), ?(bool_decide_eq_false_2 _ Hyc),
            ?(bool_decide_eq_true_2 _ Hxa), ?(bool_decide_eq_false_2 _ Hxa),
            ?(bool_decide_eq_true_2 _ Hxb), ?(bool_decide_eq_false_2 _ Hxb);
    cbn [xorb andb negb];
    (split; [intros ?; try done; qc_to_q; repeat split; lra
            |intros [[? ?] [? ?]]; try done; exfalso; qc_to_q; lra]).
Qed.

Lemma isPointInPolygon_rectangle_example :
  is_binary64 (zq 0) ∧ is_binary64 (zq 10) ∧ zq 0 < zq 10 ∧
  (isPointInPolygon (pt 5 5) (rectangle_ring (zq 0) (zq 10) (zq 0) (zq 10)) = true
   ↔ (zq 0 ≤ zq 5 ∧ zq 5 < zq 10) ∧ (zq 0 ≤ zq 5 ∧ zq 5 < zq 10)).
Proof.
  assert (is_binary64 (zq 0)) as H0 by (apply is_binary64_intro; by vm_compute).
  assert (is_binary64 (zq 10)) as H10 by (apply is_binary64_intro; by vm_compute).
  assert (zq 0 < zq 10) as H by by vm_compute.
  split; [exact H0|]. split; [exact H10|]. split; [exact H|].
  exact (isPointInPolygon_rectangle (zq 0) (zq 10) (zq 0) (zq 10) (zq 5) (zq 5)
           H0 H10 H H).
Defined.

Lemma path_parity_none (point vj : latlng) (rest : list latlng) :
  (∀ u w, u ∈ vj :: rest → w ∈ vj :: rest → crosses point u w = false) →
  path_parity point vj rest = false.
Proof.
  revert vj. induction rest as [|vi rest IH]; intros vj H; simpl; [done|].
  rewrite H, IH; [done| | |].
  - intros u w Hu Hw. apply H; by right.
  - right. left.
  - left.
Qed.

Lemma bounds_contains_spec (b : bounds) (v : latlng) :
  bounds_contains b v = true ↔
  south b ≤ ll_lat v ∧ ll_lat v ≤ north b ∧ west b ≤ ll_lng v ∧ ll_lng v ≤ east b.
Proof.
  unfold bounds_contains. rewrite !andb_true_iff, !Qc_leb_le. tauto.
Qed.

(** X17. What the bounds test of [getZipsInBoundary] adds to the polygon
    test.  For the longitude, nothing: a point west or east of every vertex
    is never reported inside.  For the latitude it decides: the crossing
    latitude is rounded, and the ring (20,2), (0.001,0), (40.123,1) reports
    as inside a point at latitude 0.0009999999999999998, south of every
    vertex; the bounds test keeps the ZIP at that point out of the
    selection. *)
Theorem bounds_test_guards_latitude :
  (∀ (b : bounds) (latlngs : list latlng) (point : latlng),
     (∀ v, v ∈ latlngs → west b ≤ ll_lng v ∧ ll_lng v ≤ east b) →
     ll_lng point < west b ∨ east b < ll_lng point →
     isPointInPolygon point latlngs = false) ∧
  (let b := {| south := double 1 1000; west := zq 0; north := double 40123 1000;
               east := zq 2 |} in
   all_binary64 (point_south :: thin_triangle) ∧
   (∀ v, v ∈ thin_triangle → bounds_contains b v = true) ∧
   ll_lat point_south < south b ∧
   isPointInPolygon point_south thin_triangle = true ∧
   ∀ code price people,
     let zp := {| z := code; lat := ll_lat point_south; lon := ll_lng point_south;
                  p := price; pop := people |} in
     getZipsInBoundary [zp] (example_page true (Some (Polygon b thin_triangle)))
     = Returns (Some [])).
Proof.
  split.
  - intros b latlngs point Hbox Hout. rewrite isPointInPolygon_parity.
    destruct (last latlngs) as [vl|] eqn:Hlast; [|done].
    assert (vl ∈ latlngs) as Hvl.
    { destruct latlngs as [|w l _] using rev_ind; [done|].
      rewrite last_snoc in Hlast. injection Hlast as ->.
      apply elem_of_app. right. left. }
    assert (∀ v, v ∈ vl :: latlngs → west b ≤ ll_lng v ∧ ll_lng v ≤ east b) as Hin.
    { intros v [->|Hv]%elem_of_cons; by apply Hbox. }
    apply path_parity_none. intros u w Hu Hw. unfold crosses. cbv zeta.
    destruct (Hin u Hu) as [Hu1 Hu2], (Hin w Hw) as [Hw1 Hw2].
    destruct Hout as [Hwest|Heast].
    + rewrite (bool_decide_eq_true_2 (ll_lng point < ll_lng u)),
              (bool_decide_eq_true_2 (ll_lng point < ll_lng w)); [done|..];
        eapply Qclt_le_trans; eassumption.
    + rewrite (bool_decide_eq_false_2 (ll_lng point < ll_lng u)),
              (bool_decide_eq_false_2 (ll_lng point < ll_lng w)); [done|..];
        apply Qcle_not_lt; (etrans; [eassumption|by apply Qclt_le_weak]).
  - intros b. split_and!.
    + apply all_binary64_intro. by vm_compute.
    + intros v Hv. unfold thin_triangle in Hv.
      repeat (apply elem_of_cons in Hv as [->|Hv]); [by vm_compute..|by inv Hv].
    + by vm_compute.
    + by vm_compute.
    + intros code price people zp. by vm_compute.
Qed.

Lemma bounds_test_guards_latitude_example :
  let b := {| south := zq 0; west := zq 0; north := zq 10; east := zq 10 |} in
  (∀ v, v ∈ bow_tie → west b ≤ ll_lng v ∧ ll_lng v ≤ east b) ∧
  isPointInPolygon (pt 5 12) bow_tie = false.
Proof.
  intros b.
  assert (∀ v, v ∈ bow_tie → west b ≤ ll_lng v ∧ ll_lng v ≤ east b) as Hbox.
  { intros v Hv. unfold bow_tie in Hv.
    repeat (apply elem_of_cons in Hv as [->|Hv]); [by vm_compute..|by inv Hv]. }
  assert (ll_lng (pt 5 12) < west b ∨ east b < ll_lng (pt 5 12)) as Hout
    by (right; by vm_compute).
  split; [exact Hbox|].
  exact (proj1 bounds_test_guards_latitude b bow_tie (pt 5 12) Hbox Hout).
Defined.

(** * Further properties of the batch scripts *)

(** ** The year-ago resolution *)

Lemma find_exact_some (strptime : string → option datetime) (ty tm : Z)
    (M : list string) (c : string) :
  create_yoy_map.find_exact strptime ty tm M = Some c →
  c ∈ M ∧ in_month strptime ty tm c.
Proof.
  induction M as [|col M IH]; simpl; [done|].
  destruct (strptime col) as [d|] eqn:Hd.
  - destruct ((year d =? ty)%Z && (month d =? tm)%Z) eqn:Hb.
    + intros [= <-]. apply andb_true_iff in Hb as [?%Z.eqb_eq ?%Z.eqb_eq].
      split; [left|by exists d].
    + intros [? ?]%IH. split; [by right|done].
  - intros [? ?]%IH. split; [by right|done].
Qed.

Lemma last_elem_of {A} (l : list A) (x : A) : last l = Some x → x ∈ l.
Proof.
  destruct l as [|y l _] using rev_ind; [done|].
  rewrite last_snoc. intros [= ->]. apply elem_of_app. right. left.
Qed.

Lemma year_ago_resolved (strptime : string → option datetime)
    (columns : list string) (latest c : string) :
  create_yoy_map.year_ago strptime columns = Resolved latest c →
  let M := filter (λ col, has_dash col = true) columns in
  ∃ T, last M = Some latest ∧ strptime latest = Some T ∧
       c ∈ M ∧ in_year strptime (year T - 1) c.
Proof.
  intros Hres M. unfold create_yoy_map.year_ago in Hres. fold M in Hres.
  destruct (last M) as [l|] eqn:Hlast; [|done].
  destruct (strptime l) as [T|] eqn:HT; [|done].
  simpl in Hres.
  destruct (create_yoy_map.find_exact strptime (year T - 1) (month T) M)
    as [e|] eqn:He.
  - apply find_exact_some in He as [Hin (d & Hd & Hy & _)].
    destruct e as [|a e]; simpl in Hres.
    + destruct (stable_sort key_leb _) as [|h t] eqn:Hs; simpl in Hres; [done|].
      exfalso. pose proof (date_column_truthy columns "" Hin). done.
    + injection Hres as <- <-. exists T. split_and!; [done..|by exists d].
  - simpl in Hres.
    destruct (stable_sort key_leb _) as [|h t] eqn:Hs; simpl in Hres; [done|].
    destruct (stable_sort_head snd _ h t Hs) as (cpre & cpost & Hc & _).
    destruct (candidates_split strptime _ _ M cpre h cpost Hc)
      as (pre & c' & post & d & HM & _ & _ & Hd & Hy & ->).
    simpl in Hres. destruct c' as [|a c']; [done|].
    injection Hres as <- <-. exists T. split_and!; [done..| |by exists d].
    rewrite HM, elem_of_app, elem_of_cons. auto.
Qed.

(** X18. Whatever column the resolution returns, it is a date column of
    the year before the latest date's year; so it is never the latest
    column itself, and the latest column it reports is the last column with
    a dash. *)
Theorem year_ago_is_of_prior_year (strptime : string → option datetime)
    (columns : list string) (latest c : string) :
  create_yoy_map.year_ago strptime columns = Resolved latest c ∨
  create_sophisticated_map.year_ago strptime columns = Resolved latest c →
  let M := filter (λ col, has_dash col = true) columns in
  ∃ T d, last M = Some latest ∧ strptime latest = Some T ∧
         c ∈ M ∧ strptime c = Some d ∧ year d = (year T - 1)%Z ∧ c ≠ latest.
Proof.
  intros Hres M.
  assert (create_yoy_map.year_ago strptime columns = Resolved latest c) as Hyoy.
  { destruct Hres as [?|Hs]; [done|]. by rewrite <-year_ago_agree. }
  destruct (year_ago_resolved strptime columns latest c Hyoy)
    as (T & Hlast & HT & Hin & d & Hd & Hy).
  exists T, d. split_and!; [done..|].
  intros ->. rewrite HT in Hd. injection Hd as ->. lia.
Qed.

Lemma year_ago_is_of_prior_year_example :
  let columns :=
    ["RegionName"; "2023-01-31"; "2023-02-28"; "2023-04-30"; "2024-03-31"]%string in
  let M := filter (λ col, has_dash col = true) columns in
  create_yoy_map.year_ago strptime_ymd columns = Resolved "2024-03-31" "2023-02-28" ∧
  ∃ T d, last M = Some "2024-03-31"%string ∧ strptime_ymd "2024-03-31" = Some T ∧
         "2023-02-28"%string ∈ M ∧ strptime_ymd "2023-02-28" = Some d ∧
         year d = (year T - 1)%Z ∧ "2023-02-28"%string ≠ "2024-03-31"%string.
Proof.
  intros columns M.
  assert (create_yoy_map.year_ago strptime_ymd columns
          = Resolved "2024-03-31" "2023-02-28") as Hres by reflexivity.
  split; [exact Hres|].
  exact (year_ago_is_of_prior_year strptime_ymd columns _ _ (or_introl Hres)).
Defined.

(** X19. The three ways in which the resolution fails, in both scripts:
    there is no column with a dash; the last column with a dash is not a
    date; or no column with a dash is a date of the year before the latest
    date's year. *)
Theorem year_ago_failures (strptime : string → option datetime)
    (columns : list string) :
  let M := filter (λ col, has_dash col = true) columns in
  let outcome := create_yoy_map.year_ago strptime columns in
  create_sophisticated_map.year_ago strptime columns = outcome ∧
  (outcome = NoDateColumns ↔ ∀ col, col ∈ columns → has_dash col = false) ∧
  (outcome = LatestDateUnparsable ↔
     ∃ latest, last M = Some latest ∧ strptime latest = None) ∧
  (outcome = NoYearAgoData ↔
     ∃ latest T, last M = Some latest ∧ strptime latest = Some T ∧
       ∀ col, col ∈ M → ¬ in_year strptime (year T - 1) col).
Proof.
  intros M outcome. split; [apply year_ago_agree|].
  assert (∀ latest T, last M = Some latest → strptime latest = Some T →
            (outcome = NoYearAgoData ↔
             ∀ col, col ∈ M → ¬ in_year strptime (year T - 1) col)) as Hno.
  { intros latest T Hlast HT. split.
    - intros Hout col Hcol Hy.
      subst outcome. unfold create_yoy_map.year_ago in Hout. fold M in Hout.
      rewrite Hlast, HT in Hout. simpl in Hout.
      destruct (create_yoy_map.find_exact strptime (year T - 1) (month T) M)
        as [e|] eqn:He.
      + apply find_exact_some in He as [Hin _].
        pose proof (date_column_truthy columns e Hin) as Htr.
        destruct e; [done|]. simpl in Hout. done.
      + simpl in Hout. destruct Hy as (d & Hd & Hyd).
        pose proof (candidates_elem strptime (year T - 1) (month T) M col d Hcol Hd Hyd)
          as Hcand.
        destruct (stable_sort key_leb _) as [|h t] eqn:Hs.
        * apply (f_equal length) in Hs. rewrite stable_sort_length in Hs.
          destruct (create_yoy_map.candidates strptime _ _ M); [by inv Hcand|done].
        * destruct (stable_sort_head snd _ h t Hs) as (cpre & cpost & Hc & _).
          destruct (candidates_split strptime _ _ M cpre h cpost Hc)
            as (pre & c' & post & d' & HM & _ & _ & _ & _ & ->).
          simpl in Hout.
          assert (truthy (Some c') = true) as Htr.
          { apply (date_column_truthy columns). fold M.
            rewrite HM, elem_of_app, elem_of_cons. auto. }
          destruct c'; done.
    - intros Hnone. by apply (year_ago_no_data strptime columns latest T). }
  split_and!.
  - subst outcome. unfold create_yoy_map.year_ago. fold M. split.
    + destruct (last M) as [l|] eqn:Hlast.
      * destruct (strptime l); simpl; [|done].
        match goal with |- context [match ?o with Some _ => _ | None => _ end] =>
          destruct o as [[|]|] end; done.
      * intros _ col Hcol. destruct (has_dash col) eqn:Hd; [|done].
        assert (col ∈ M) as Hin by (apply list_elem_of_filter; done).
        destruct M as [|x M' _] using rev_ind; [by inv Hin|].
        by rewrite last_snoc in Hlast.
    + intros Hnd. assert (M = []) as ->; [|done].
      apply filter_none, Forall_forall. intros col Hcol. by rewrite (Hnd col Hcol).
  - subst outcome. unfold create_yoy_map.year_ago. fold M.
    destruct (last M) as [l|] eqn:Hlast.
    + destruct (strptime l) as [T|] eqn:HT; simpl.
      * split; [|by intros (latest & [= <-] & ?); congruence].
        match goal with |- context [match ?o with Some _ => _ | None => _ end] =>
          destruct o as [[|]|] end; done.
      * split; [by exists l|done].
    + split; [done|by intros (? & ? & _)].
  - destruct (last M) as [l|] eqn:Hlast.
    + destruct (strptime l) as [T|] eqn:HT.
      * rewrite (Hno l T eq_refl HT). split.
        -- intros H. by exists l, T.
        -- intros (latest & T' & [= <-] & HT' & H). rewrite HT in HT'.
           by injection HT' as <-.
      * subst outcome. unfold create_yoy_map.year_ago. fold M. rewrite Hlast, HT.
        split; [done|]. intros (latest & T' & [= <-] & HT' & _). congruence.
    + subst outcome. unfold create_yoy_map.year_ago. fold M. rewrite Hlast.
      split; [done|]. by intros (latest & T' & ? & _).
Qed.

(** ** The result frames *)

Lemma cell_not_nan (r : row) (col : string) :
  cell r col ≠ NaN → ∃ q, cells r !! col = Some q ∧ cell r col = Fin q.
Proof. unfold cell. destruct (cells r !! col) as [q|]; [by exists q|done]. Qed.

(** X20. Every row of the result of either script comes from a row of the
    frame whose two values are present and whose prior value is not zero,
    and its change is the finite number (current − prior) / prior × 100,
    strictly between −50 and 100 in [create_yoy_map.py] and between −50 and
    100 inclusive in [create_sophisticated_map.py]: the results hold no
    missing and no infinite change. *)
Theorem result_rows_are_finite_and_in_band (df : list row)
    (latest_date year_ago_date : string) :
  (∀ x, x ∈ create_yoy_map.df_yoy df latest_date year_ago_date →
     ∃ cur prior,
       create_yoy_map.src x ∈ df ∧
       cells (create_yoy_map.src x) !! latest_date = Some cur ∧
       cells (create_yoy_map.src x) !! year_ago_date = Some prior ∧
       prior ≠ 0 ∧
       create_yoy_map.yoy_change x = Fin ((cur - prior) / prior * zq 100) ∧
       zq (-50) < (cur - prior) / prior * zq 100 ∧
       (cur - prior) / prior * zq 100 < zq 100) ∧
  (∀ x, x ∈ create_sophisticated_map.df_analysis df latest_date year_ago_date →
     ∃ cur prior,
       create_sophisticated_map.src x ∈ df ∧
       cells (create_sophisticated_map.src x) !! latest_date = Some cur ∧
       cells (create_sophisticated_map.src x) !! year_ago_date = Some prior ∧
       prior ≠ 0 ∧
       create_sophisticated_map.price_change_pct x
       = Fin ((cur - prior) / prior * zq 100) ∧
       zq (-50) ≤ (cur - prior) / prior * zq 100 ∧
       (cur - prior) / prior * zq 100 ≤ zq 100).
Proof.
  split.
  - intros x [Hband (r & Hr & Hl & Hy & ->)%elem_of_with_yoy_change]%list_elem_of_filter.
    simpl in *.
    destruct (cell_not_nan r latest_date Hl) as (cur & Hcur & Ecur).
    destruct (cell_not_nan r year_ago_date Hy) as (prior & Hprior & Eprior).
    rewrite Ecur, Eprior in Hband |- *.
    exists cur, prior. destruct (decide (prior = 0)) as [->|Hne].
    { destruct (change_of_zero cur) as (v & Hv & Hcases). rewrite Hv in Hband.
      by destruct Hcases as [-> | [-> | ->]]. }
    rewrite (change_of_finite cur prior Hne) in Hband |- *.
    apply andb_true_iff in Hband as [H1 H2]. unfold f_gt in H1. simpl in H1, H2.
    apply bool_decide_eq_true in H1, H2. done.
  - intros x [Hband (r & Hr & Hl & Hy & ->)%elem_of_with_price_change]%list_elem_of_filter.
    simpl in *.
    destruct (cell_not_nan r latest_date Hl) as (cur & Hcur & Ecur).
    destruct (cell_not_nan r year_ago_date Hy) as (prior & Hprior & Eprior).
    rewrite Ecur, Eprior in Hband |- *.
    exists cur, prior. destruct (decide (prior = 0)) as [->|Hne].
    { destruct (change_of_zero cur) as (v & Hv & Hcases). rewrite Hv in Hband.
      by destruct Hcases as [-> | [-> | ->]]. }
    rewrite (change_of_finite cur prior Hne) in Hband |- *.
    apply andb_true_iff in Hband as [H1 H2]. unfold f_ge in H1. simpl in H1, H2.
    apply bool_decide_eq_true in H1, H2. done.
Qed.

Lemma f_lt_le (a b : float64) : f_lt a b = true → f_le a b = true.
Proof.
  destruct a, b; simpl; try done.
  rewrite !bool_decide_eq_true. apply Qclt_le_weak.
Qed.

Lemma kept_as_filter {A B} (f : A → B) (g : B → A) (N : A → Prop) (P : B → Prop)
    `{!∀ x, Decision (N x)} `{!∀ y, Decision (P y)} (l : list A) :
  (∀ x, g (f x) = x) →
  g <$> filter P (f <$> filter N l) = filter (λ x, N x ∧ P (f x)) l.
Proof.
  intros Hg. induction l as [|x l IH]; [done|].
  rewrite (filter_cons N). destruct (decide (N x)) as [HN|HN].
  - rewrite fmap_cons, (filter_cons P). destruct (decide (P (f x))) as [HP|HP].
    + rewrite filter_cons_True by done. by rewrite fmap_cons, Hg, IH.
    + rewrite filter_cons_False by tauto. done.
  - rewrite filter_cons_False by tauto. done.
Qed.

Lemma sublist_filter_impl {A} (P Q : A → Prop) `{!∀ x, Decision (P x)}
    `{!∀ x, Decision (Q x)} (l : list A) :
  (∀ x, P x → Q x) → filter P l `sublist_of` filter Q l.
Proof.
  intros HPQ. induction l as [|x l IH]; [done|].
  rewrite !filter_cons. destruct (decide (P x)) as [HP|HP].
  - rewrite decide_True by auto. by apply sublist_skip.
  - destruct (decide (Q x)); [by apply sublist_cons|done].
Qed.

(** X21. On the same frame and columns, the regions that
    [create_yoy_map.py] keeps are among those that
    [create_sophisticated_map.py] keeps, in the same order, and both are
    taken from the frame in frame order. *)
Theorem yoy_map_keeps_fewer (df : list row) (latest_date year_ago_date : string) :
  let kept_yoy :=
    create_yoy_map.src <$> create_yoy_map.df_yoy df latest_date year_ago_date in
  let kept_sophisticated :=
    create_sophisticated_map.src
      <$> create_sophisticated_map.df_analysis df latest_date year_ago_date in
  kept_yoy `sublist_of` kept_sophisticated ∧ kept_sophisticated `sublist_of` df.
Proof.
  unfold create_yoy_map.df_yoy, create_yoy_map.with_yoy_change,
    create_sophisticated_map.df_analysis, create_sophisticated_map.with_price_change.
  cbv zeta. rewrite !kept_as_filter by done. split.
  - apply sublist_filter_impl. cbn [create_yoy_map.yoy_change
      create_sophisticated_map.price_change_pct].
    intros r [Hna Hband]. split; [by rewrite andb_comm|].
    apply andb_true_iff in Hband as [H1 H2]. apply andb_true_iff.
    split; [unfold f_ge; apply f_lt_le; exact H1|by apply f_lt_le].
  - apply sublist_filter.
Qed.

Lemma change_sign_facts (cur prior : Qc) :
  0 < prior →
  let q := (cur - prior) / prior * zq 100 in
  (0 < q ↔ prior < cur) ∧ (q < 0 ↔ cur < prior) ∧ (0 ≤ cur → zq (-100) ≤ q).
Proof.
  intros Hp q. subst q. unfold Qcdiv, Qcinv. qc_to_q.
  change (this 0) with 0%Q in *. unfold inject_Z.
  assert (¬ this prior == 0)%Q as Hne by lra.
  pose proof (Qmult_inv_r (this prior) Hne) as Hinv.
  set (iq := (/ this prior)%Q) in *. clearbody iq.
  assert (0 < iq)%Q as Hi by nra.
  set (tq := (this cur * iq)%Q).
  assert ((this cur + - this prior) * iq * (100 # 1) == (tq - 1) * (100 # 1))%Q as ->.
  { subst tq. transitivity ((this cur * iq - this prior * iq) * (100 # 1))%Q; [ring|].
    rewrite Hinv. ring. }
  assert (0 < tq - 1 ↔ this prior < this cur)%Q as H1.
  { subst tq. split; intros; nra. }
  assert (tq - 1 < 0 ↔ this cur < this prior)%Q as H2.
  { subst tq. split; intros; nra. }
  assert (0 <= tq ↔ 0 <= this cur)%Q as H3.
  { subst tq. split; intros; nra. }
  clearbody tq. split_and!; [split; intros; lra..|intros; lra].
Qed.

(** The converse of the last part is not a property of the script: just
    below zero, the current value is lost in the subtraction, and the change
    is -100. *)
Example binary64_change_of_small_negative :
  (binary64.change (- (1 / 1000000000000)) 100000 =? -100)%float = true.
Proof. reflexivity. Qed.

(** X22. For a region with a positive prior value, the sign of the change
    tells whether the value rose or fell, and a current value that is not
    negative gives a change of at least −100. *)
Theorem change_sign (df : list row) (latest_date year_ago_date : string)
    (x : create_yoy_map.yoy_row) (cur prior : Qc) :
  x ∈ create_yoy_map.with_yoy_change df latest_date year_ago_date →
  create_yoy_map.latest_price x = Fin cur →
  create_yoy_map.year_ago_price x = Fin prior →
  0 < prior →
  ∃ q, create_yoy_map.yoy_change x = Fin q ∧
       (0 < q ↔ prior < cur) ∧ (q < 0 ↔ cur < prior) ∧ (0 ≤ cur → zq (-100) ≤ q).
Proof.
  intros (r & _ & _ & _ & ->)%elem_of_with_yoy_change. simpl.
  intros -> -> Hp. exists ((cur - prior) / prior * zq 100). split.
  - apply change_of_finite. intros ->. by apply Qclt_not_eq in Hp.
  - by apply change_sign_facts.
Qed.

Lemma change_sign_example :
  let df := [example_row 120000 100000] in
  ∃ x, x ∈ create_yoy_map.with_yoy_change df "2024-03-31" "2023-03-31" ∧
       0 < zq 100000 ∧
       ∃ q, create_yoy_map.yoy_change x = Fin q ∧
            (0 < q ↔ zq 100000 < zq 120000) ∧ (q < 0 ↔ zq 120000 < zq 100000) ∧
            (0 ≤ zq 120000 → zq (-100) ≤ q).
Proof.
  intros df.
  assert (0 < zq 100000) as Hp by by vm_compute.
  assert (∃ x, create_yoy_map.with_yoy_change df "2024-03-31" "2023-03-31" = [x] ∧
               create_yoy_map.latest_price x = Fin (zq 120000) ∧
               create_yoy_map.year_ago_price x = Fin (zq 100000))
    as (x & Hx & Hl & Hy) by (eexists; split_and!; reflexivity).
  assert (x ∈ create_yoy_map.with_yoy_change df "2024-03-31" "2023-03-31") as Hin
    by (rewrite Hx; apply list_elem_of_singleton; reflexivity).
  exists x. split; [exact Hin|]. split; [exact Hp|].
  exact (change_sign df "2024-03-31" "2023-03-31" x (zq 120000) (zq 100000)
           Hin Hl Hy Hp).
Defined.

(** X23. Every row of the result of [create_price_levels.py] comes from a
    row of the frame whose latest value is present and lies between 10000
    and 10000000 inclusive; the kept regions are taken from the frame in
    frame order. *)
Theorem price_levels_rows_in_band (df : list row) (latest_date : string) :
  (∀ x, x ∈ create_price_levels.df_analysis df latest_date →
     ∃ price,
       create_price_levels.src x ∈ df ∧
       cells (create_price_levels.src x) !! latest_date = Some price ∧
       create_price_levels.price_level x = Fin price ∧
       zq 10000 ≤ price ∧ price ≤ zq 10000000) ∧
  create_price_levels.src <$> create_price_levels.df_analysis df latest_date
    `sublist_of` df.
Proof.
  split.
  - unfold create_price_levels.df_analysis, create_price_levels.with_price_level.
    intros x [Hband (r & -> & [Hna Hr]%list_elem_of_filter)%list_elem_of_fmap]%list_elem_of_filter.
    simpl in *.
    destruct (cell_not_nan r latest_date) as (price & Hprice & Eprice).
    { intros E. by rewrite E in Hna. }
    rewrite Eprice in Hband |- *. exists price.
    apply andb_true_iff in Hband as [H1 H2]. unfold f_ge in H1. simpl in H1, H2.
    apply bool_decide_eq_true in H1, H2. done.
  - unfold create_price_levels.df_analysis, create_price_levels.with_price_level.
    cbv zeta. rewrite kept_as_filter by done. apply sublist_filter.
Qed.

(** ** Marker sizes *)

Ltac qc_cases :=
  repeat case_bool_decide;
  first [ done | by vm_compute
        | exfalso; qc_to_q; unfold inject_Z in *; lra ].

(** X24. The radius column never holds the default 1.0 of [np.select]:
    after [fillna(1000)] every population gets one of the six radii, at
    least 3 and at most 25; and a larger population never gets a smaller
    radius. *)
Theorem radius_column_range_and_order :
  (∀ population,
     radius_column population ∈ [zq 3; zq 4; zq 6; zq 10; zq 16; zq 25]) ∧
  (∀ p1 p2 : Qc,
     p1 ≤ p2 → radius_column (Fin p1) ≤ radius_column (Fin p2)).
Proof.
  split.
  - intros population. unfold radius_column, population_radius.
    destruct population as [q| | |]; simpl.
    + repeat case_bool_decide; try (by repeat constructor).
      exfalso. qc_to_q. unfold inject_Z in *. lra.
    + by repeat constructor.
    + by repeat constructor.
    + by repeat constructor.
  - intros p1 p2 Hle. unfold radius_column, population_radius. simpl. qc_cases.
Qed.

(** X25. The radius of a marker of [create_yoy_map.py] and
    [create_price_levels.py] is the size clamped to the range from 3 to 20:
    the upper limit 50 of [clip] never shows, because [Math.min] caps the
    radius at 20. *)
Theorem bubble_radius_is_clamped (size : float64) :
  size ≠ NaN →
  bubble_radius size = clip (zq 3) (zq 20) size ∧
  ∃ q, bubble_radius size = Fin q ∧ zq 3 ≤ q ∧ q ≤ zq 20.
Proof.
  intros Hs. unfold bubble_radius, clip, math_min2.
  destruct size as [q| | |]; [| | |done]; simpl.
  - split.
    + repeat case_bool_decide; simpl; repeat case_bool_decide;
        first [ done | by vm_compute
              | exfalso; qc_to_q; unfold inject_Z in *; lra
              | f_equal; apply Qcle_antisym; qc_to_q; unfold inject_Z in *; lra ].
    + repeat case_bool_decide; simpl; repeat case_bool_decide; eexists;
        (split; [reflexivity|]);
        first [ by vm_compute
              | qc_to_q; unfold inject_Z in *; split; lra
              | exfalso; qc_to_q; unfold inject_Z in *; lra ].
  - split; [done|]. exists (zq 20). by vm_compute.
  - split; [done|]. exists (zq 3). by vm_compute.
Qed.

Lemma bubble_radius_is_clamped_example :
  Fin (zq 35) ≠ NaN ∧ bubble_radius (Fin (zq 35)) = Fin (zq 20).
Proof.
  assert (Fin (zq 35) ≠ NaN) as H by done.
  split; [exact H|].
  rewrite (proj1 (bubble_radius_is_clamped (Fin (zq 35)) H)). reflexivity.
Defined.

(** ** [check_for_updates.py] *)

Lemma get_stored_date_saved (date_str now : string) :
  check_for_updates.get_stored_date (check_for_updates.save_metadata date_str now)
  = Some date_str.
Proof.
  unfold check_for_updates.get_stored_date, check_for_updates.save_metadata.
  apply lookup_insert_eq.
Qed.

Lemma main_cases (strptime : string → option datetime) (header : option string)
    (now : string) (file : option (gmap string string)) :
  let out := check_for_updates.main strptime header now file in
  ((¬ ∃ latest, usable_latest strptime header latest) ∧
   out = {| check_for_updates.exit_code := 1;
            check_for_updates.new_data := None;
            check_for_updates.metadata_file := file |})
  ∨ (∃ latest, usable_latest strptime header latest ∧
       ((check_for_updates.get_stored_date file = Some latest ∧
         out = {| check_for_updates.exit_code := 0;
                  check_for_updates.new_data := Some false;
                  check_for_updates.metadata_file := file |})
        ∨ (check_for_updates.get_stored_date file ≠ Some latest ∧
           out = {| check_for_updates.exit_code := 0;
                    check_for_updates.new_data := Some true;
                    check_for_updates.metadata_file :=
                      check_for_updates.save_metadata latest now |}))).
Proof.
  intros out. subst out.
  unfold check_for_updates.main, check_for_updates.get_latest_date_from_zillow.
  destruct header as [h|].
  2: { left. split; [|done]. by intros (? & ? & ? & ? & _). }
  simpl. destruct (last (split_char "," "" h)) as [latest|] eqn:Hlast.
  2: { left. split; [|done]. intros (? & h' & ? & [= <-] & Hl & _). congruence. }
  destruct (strptime latest) as [d|] eqn:Hd.
  2: { left. split; [|done]. intros (l & h' & d & [= <-] & Hl & Hd' & _). congruence. }
  destruct latest as [|a latest]; cbn [truthy negb].
  { left. split; [|done]. intros (l & h' & d' & [= <-] & Hl & _ & Hne). congruence. }
  right. exists (String a latest). split.
  { exists h, d. done. }
  destruct (check_for_updates.get_stored_date file) as [stored|] eqn:Hst.
  - destruct (String.eqb_spec (String a latest) stored) as [<-|Hne]; cbn [negb].
    + left. done.
    + right. split; [congruence|done].
  - right. done.
Qed.

(** X26. A run of [main] ends with exit code 1 exactly when it has no usable
    latest date (the request failed, or the last field of the header is not
    a date), and then it prints no [NEW_DATA] line and leaves the metadata
    file as it was; otherwise it ends with exit code 0. *)
Theorem main_exit_code (strptime : string → option datetime)
    (header : option string) (now : string) (file : option (gmap string string)) :
  let out := check_for_updates.main strptime header now file in
  (check_for_updates.exit_code out = 1%Z
   ↔ ¬ ∃ latest, usable_latest strptime header latest) ∧
  (check_for_updates.exit_code out = 0%Z
   ↔ ∃ latest, usable_latest strptime header latest) ∧
  (check_for_updates.exit_code out = 1%Z →
   check_for_updates.new_data out = None ∧
   check_for_updates.metadata_file out = file).
Proof.
  intros out.
  destruct (main_cases strptime header now file)
    as [[Hno Hout]|(latest & Hok & [[_ Hout]|[_ Hout]])];
    fold out in Hout; rewrite Hout; simpl; split_and!; try split; try done;
    try (intros _; by exists latest); intros H; exfalso; apply H; by exists latest.
Qed.

(** X27. After a run with exit code 0 the metadata file holds the latest
    date; the run reported new data exactly when the file did not already
    hold that date; and a second run on the same header, at any time,
    reports no new data and leaves the file as the first run left it. *)
Theorem main_records_latest_date (strptime : string → option datetime)
    (header : option string) (now : string) (file : option (gmap string string)) :
  let out := check_for_updates.main strptime header now file in
  check_for_updates.exit_code out = 0%Z →
  ∃ latest,
    usable_latest strptime header latest ∧
    check_for_updates.get_stored_date (check_for_updates.metadata_file out)
    = Some latest ∧
    (check_for_updates.new_data out = Some true
     ↔ check_for_updates.get_stored_date file ≠ Some latest) ∧
    (check_for_updates.new_data out = Some false
     ↔ check_for_updates.get_stored_date file = Some latest) ∧
    ∀ now',
      check_for_updates.main strptime header now'
        (check_for_updates.metadata_file out)
      = {| check_for_updates.exit_code := 0;
           check_for_updates.new_data := Some false;
           check_for_updates.metadata_file := check_for_updates.metadata_file out |}.
Proof.
  intros out Hexit.
  assert (∀ l1 l2, usable_latest strptime header l1 →
                   usable_latest strptime header l2 → l1 = l2) as Huniq.
  { intros l1 l2 (h1 & _ & -> & H1 & _) (h2 & _ & [= <-] & H2 & _). congruence. }
  destruct (main_cases strptime header now file)
    as [[Hno Hout]|(latest & Hok & [[Hst Hout]|[Hst Hout]])];
    fold out in Hout; rewrite Hout in Hexit |- *; simpl in *; [done| |].
  - exists latest. split_and!; [done|done|split; [done|by intros []]|done|].
    intros now'.
    destruct (main_cases strptime header now' file)
      as [[Hno' _]|(latest' & Hok' & [[_ Hout']|[Hne' _]])].
    + exfalso. apply Hno'. by exists latest.
    + done.
    + exfalso. apply Hne'. by rewrite (Huniq latest' latest Hok' Hok).
  - exists latest.
    split_and!; [done|exact (get_stored_date_saved latest now)|done|split; [done|by intros ?]|].
    intros now'.
    destruct (main_cases strptime header now'
                (check_for_updates.save_metadata latest now))
      as [[Hno' _]|(latest' & Hok' & [[_ Hout']|[Hne' _]])].
    + exfalso. apply Hno'. by exists latest.
    + done.
    + exfalso. apply Hne'. rewrite (Huniq latest' latest Hok' Hok).
      exact (get_stored_date_saved latest now).
Qed.

Lemma main_records_latest_date_example :
  let header := Some "RegionID,RegionName,2024-02-29,2024-03-31"%string in
  let out := check_for_updates.main strptime_ymd header "2024-04-17T06:00:00" None in
  check_for_updates.exit_code out = 0%Z ∧
  check_for_updates.get_stored_date (check_for_updates.metadata_file out)
  = Some "2024-03-31"%string.
Proof.
  intros header out.
  assert (check_for_updates.exit_code out = 0%Z) as Hexit by reflexivity.
  split; [exact Hexit|].
  destruct (main_records_latest_date strptime_ymd header "2024-04-17T06:00:00" None Hexit)
    as (latest & (h & d & Hh & Hlast & _) & Hst & _).
  unfold out. rewrite Hst. injection Hh as <-. vm_compute in Hlast. exact (eq_sym Hlast).
Defined.

(** ** Search *)

Section search_facts.
Context (searchIndex : list search_item) (trim toLowerCase : string → string).

Lemma find_item_Some f item :
  find_item searchIndex f = Some item →
  item ∈ searchIndex ∧ f item = true ∧
  ∃ pre post, searchIndex = pre ++ item :: post ∧ ∀ x, x ∈ pre → f x = false.
Proof.
  unfold find_item. induction searchIndex as [|x l IH]; [done|].
  rewrite filter_cons. destruct (decide (f x = true)) as [Hx|Hx]; simpl.
  - intros [= <-]. split_and!; [left|done|]. exists [], l. split; [done|].
    by intros ? ?%elem_of_nil.
  - intros (Hin & Hf & pre & post & -> & Hpre)%IH. split_and!; [by right|done|].
    exists (x :: pre), post. split; [done|].
    intros y [->|Hy]%elem_of_cons; [by destruct (f x)|by apply Hpre].
Qed.

Lemma find_item_None f :
  find_item searchIndex f = None ↔ ∀ item, item ∈ searchIndex → f item = false.
Proof.
  unfold find_item. induction searchIndex as [|x l IH]; [by split; [intros _ ? ?%elem_of_nil|]|].
  rewrite filter_cons. destruct (decide (f x = true)) as [Hx|Hx]; simpl.
  - split; [done|]. intros H. specialize (H x ltac:(left)). congruence.
  - rewrite IH. split.
    + intros H y [->|Hy]%elem_of_cons; [by destruct (f x)|by apply H].
    + intros H y Hy. apply H. by right.
Qed.

Lemma goToLocation_ok zipCode st :
  search_ok searchIndex st → search_ok searchIndex (goToLocation searchIndex zipCode st).
Proof.
  intros Hok. unfold goToLocation. destruct (find_item _ _); [|done].
  split; simpl; [lia|]. by intros ? ?%elem_of_nil.
Qed.

Lemma showSuggestions_subset query st :
  currentSuggestions (showSuggestions searchIndex toLowerCase query st) ⊆ searchIndex.
Proof.
  unfold showSuggestions. simpl.
  repeat match goal with |- context [if ?b then _ else _] => destruct b end;
    intros x Hx; try (by apply elem_of_nil in Hx);
    apply subseteq_take in Hx; by apply list_elem_of_filter in Hx as [_ ?].
Qed.

Lemma handleSearch_ok k value st :
  search_ok searchIndex st →
  ∃ st', handleSearch searchIndex trim toLowerCase k value st = Some st' ∧
         search_ok searchIndex st'.
Proof.
  intros [Hsel Hsub]. unfold handleSearch. cbv zeta. cbn [currentSuggestions
    selectedSuggestionIndex].
  destruct k.
  - destruct (Z.ltb_spec 0 (Z.of_nat (length (currentSuggestions st)))) as [Hlen|Hlen];
      eexists; (split; [reflexivity|]); split; simpl; [lia|done|lia|done].
  - destruct (Z.ltb_spec 0 (Z.of_nat (length (currentSuggestions st)))) as [Hlen|Hlen];
      eexists; (split; [reflexivity|]); split; simpl; [lia|done|lia|done].
  - destruct (Z.leb_spec 0 (selectedSuggestionIndex st)) as [H0|H0].
    + destruct (lookup_lt_is_Some_2 (currentSuggestions st)
                  (Z.to_nat (selectedSuggestionIndex st))) as [s Hs]; [lia|].
      rewrite Hs. eexists. split; [reflexivity|]. by apply goToLocation_ok.
    + eexists. split; [reflexivity|]. unfold performSearch. cbn [searchBox].
      destruct (negb _); [by split|].
      match goal with |- context [match ?o with Some _ => goToLocation _ _ _ | None => _ end] =>
        destruct o end; [by apply goToLocation_ok|by split].
  - eexists. split; [reflexivity|]. split; simpl; [lia|done].
  - destruct (_ <? 2)%nat; eexists; (split; [reflexivity|]).
    + split; simpl; [lia|]. by intros ? ?%elem_of_nil.
    + split; [|apply showSuggestions_subset]. simpl. lia.
Qed.

Lemma type_keys_ok ks st :
  search_ok searchIndex st →
  ∃ st', type_keys searchIndex trim toLowerCase ks st = Some st' ∧
         search_ok searchIndex st'.
Proof.
  revert st. induction ks as [|[k value] ks IH]; intros st Hok; simpl.
  - by exists st.
  - destruct (handleSearch_ok k value st Hok) as (st' & -> & Hok'). by apply IH.
Qed.
End search_facts.

(** X28. [showSuggestions] offers at most ten entries of the search index,
    in index order, and shows the list exactly when it is not empty.  When
    the query is one to five digits and some ZIP starts with it, every
    suggestion is a ZIP that starts with the query; otherwise every
    suggestion is a place whose lower-case name contains the lower-case
    query. *)
Theorem showSuggestions_offers_matches (searchIndex : list search_item)
    (toLowerCase : string → string) (query : string) (st : search_state) :
  let st' := showSuggestions searchIndex toLowerCase query st in
  let by_zip := λ item, startsWith (item_zip item) query = true in
  let by_name := λ item, includes (item_name item) (toLowerCase query) = true in
  (length (currentSuggestions st') ≤ 10)%nat ∧
  currentSuggestions st' `sublist_of` searchIndex ∧
  (suggestions_active st' = true ↔ currentSuggestions st' ≠ []) ∧
  (is_zip_prefix query = true ∧ (∃ item, item ∈ searchIndex ∧ by_zip item) →
   currentSuggestions st' = take 10 (filter by_zip searchIndex)) ∧
  (¬ (is_zip_prefix query = true ∧ ∃ item, item ∈ searchIndex ∧ by_zip item) →
   currentSuggestions st' = take 10 (filter by_name searchIndex)).
Proof.
  intros st' by_zip by_name. subst st'. unfold showSuggestions. cbv zeta.
  cbn [currentSuggestions suggestions_active]. fold by_zip by_name.
  set (matches := if is_zip_prefix query then take 10 (filter by_zip searchIndex) else []).
  set (result := if (length matches =? 0)%nat
                 then take 10 (filter by_name searchIndex) else matches).
  assert (matches `sublist_of` searchIndex ∧ (length matches ≤ 10)%nat) as [Hm1 Hm2].
  { subst matches. destruct (is_zip_prefix query).
    - split; [|rewrite length_take; lia].
      etrans; [apply sublist_take|apply sublist_filter].
    - split; [apply sublist_nil_l|simpl; lia]. }
  assert (result `sublist_of` searchIndex ∧ (length result ≤ 10)%nat) as [Hr1 Hr2].
  { subst result. destruct (length matches =? 0)%nat; [|done].
    split; [|rewrite length_take; lia].
    etrans; [apply sublist_take|apply sublist_filter]. }
  split_and!; [done|done| | |].
  - destruct result; simpl; [by split|]. split; [done|]. intros _. done.
  - intros [Hq (item & Hin & Hz)]. subst result matches. rewrite Hq.
    destruct (filter by_zip searchIndex) as [|x l] eqn:Hf.
    { exfalso. eapply (filter_nil_not_elem_of by_zip); [exact Hf|exact Hz|exact Hin]. }
    done.
  - intros Hnot. subst result matches.
    destruct (is_zip_prefix query) eqn:Hq; [|done].
    destruct (filter by_zip searchIndex) as [|x l] eqn:Hf; [done|].
    exfalso. apply Hnot. split; [done|]. exists x.
    assert (x ∈ filter by_zip searchIndex) as Hx by (rewrite Hf; left).
    apply list_elem_of_filter in Hx as [? ?]. done.
Qed.

(** X29. However the user types and moves through the suggestions, the key
    handler never reads a suggestion that does not exist: after every
    sequence of key events the selected index is −1 or the index of a
    current suggestion, every suggestion is an entry of the search index,
    and pressing Enter on a selected suggestion flies to an entry with that
    suggestion's ZIP and closes the list. *)
Theorem search_keys_never_raise (searchIndex : list search_item)
    (trim toLowerCase : string → string) (ks : list (key * string)) :
  ∃ st,
    type_keys searchIndex trim toLowerCase ks initial_search = Some st ∧
    search_ok searchIndex st ∧
    ∀ value,
      (0 ≤ selectedSuggestionIndex st)%Z →
      ∃ suggestion location st',
        currentSuggestions st !! Z.to_nat (selectedSuggestionIndex st)
        = Some suggestion ∧
        handleSearch searchIndex trim toLowerCase Enter value st = Some st' ∧
        flown_to st' = Some location ∧
        item_zip location = item_zip suggestion ∧
        currentSuggestions st' = [] ∧ selectedSuggestionIndex st' = (-1)%Z.
Proof.
  destruct (type_keys_ok searchIndex trim toLowerCase ks initial_search)
    as (st & Hrun & Hok).
  { split; simpl; [lia|]. by intros ? ?%elem_of_nil. }
  exists st. split_and!; [done..|].
  intros value Hsel. destruct Hok as [Hrange Hsub].
  destruct (lookup_lt_is_Some_2 (currentSuggestions st)
              (Z.to_nat (selectedSuggestionIndex st))) as [s Hs]; [lia|].
  assert (s ∈ searchIndex) as Hin by (apply Hsub; by eapply list_elem_of_lookup_2).
  unfold handleSearch. cbv zeta. cbn [currentSuggestions selectedSuggestionIndex].
  destruct (Z.leb_spec 0 (selectedSuggestionIndex st)) as [_|?]; [|lia].
  rewrite Hs. unfold goToLocation.
  destruct (find_item searchIndex (λ item, String.eqb (item_zip item) (item_zip s)))
    as [loc|] eqn:Hfind.
  - apply find_item_Some in Hfind as (_ & Heq%String.eqb_eq & _).
    exists s, loc. eexists. split_and!; [done|reflexivity|done..].
  - exfalso. rewrite find_item_None in Hfind. specialize (Hfind s Hin).
    simpl in Hfind. by rewrite String.eqb_refl in Hfind.
Qed.

(** X30. [performSearch] with a query that is not empty: when some entry
    has exactly the query as its ZIP, the map flies to the first such entry,
    whatever the names are; and when no entry matches by ZIP, by ZIP prefix
    or by name, nothing changes except that "Location not found" is
    shown. *)
Theorem performSearch_priority (searchIndex : list search_item)
    (trim toLowerCase : string → string) (st : search_state) :
  let query := trim (searchBox st) in
  query ≠ EmptyString →
  (∀ pre item post,
     searchIndex = pre ++ item :: post →
     item_zip item = query →
     (∀ x, x ∈ pre → item_zip x ≠ query) →
     flown_to (performSearch searchIndex trim toLowerCase st) = Some item) ∧
  ((∀ item, item ∈ searchIndex →
      item_zip item ≠ query ∧
      (is_zip_prefix query = true → startsWith (item_zip item) query = false) ∧
      includes (item_name item) (toLowerCase query) = false) →
   performSearch searchIndex trim toLowerCase st
   = {| selectedSuggestionIndex := selectedSuggestionIndex st;
        currentSuggestions := currentSuggestions st;
        suggestions_active := suggestions_active st;
        searchBox := searchBox st;
        flown_to := flown_to st;
        alerted := true |}).
Proof.
  intros query Hq.
  assert (negb (truthy (Some query)) = false) as Htr by (by destruct query).
  split.
  - intros pre item post Hidx Hzip Hpre.
    assert (find_item searchIndex (λ x, String.eqb (item_zip x) query) = Some item)
      as Hfind.
    { unfold find_item. rewrite Hidx, filter_app.
      rewrite (filter_none _ pre).
      - simpl. rewrite filter_cons_True; [done|]. simpl. by apply String.eqb_eq.
      - apply Forall_forall. intros x Hx. simpl.
        rewrite (proj2 (String.eqb_neq _ _) (Hpre x Hx)). done. }
    unfold performSearch. fold query. rewrite Htr, Hfind.
    unfold goToLocation. rewrite Hzip, Hfind. done.
  - intros Hnone. unfold performSearch. fold query. rewrite Htr.
    rewrite (proj2 (find_item_None searchIndex _)).
    2: { intros item Hin. destruct (Hnone item Hin) as (Hne & _ & _).
         by apply String.eqb_neq. }
    assert ((if is_zip_prefix query
             then find_item searchIndex (λ item, startsWith (item_zip item) query)
             else None) = None) as ->.
    { destruct (is_zip_prefix query) eqn:Hz; [|done].
      apply find_item_None. intros item Hin.
      destruct (Hnone item Hin) as (_ & Hp & _). by apply Hp. }
    rewrite (proj2 (find_item_None searchIndex _)); [done|].
    intros item Hin. by destruct (Hnone item Hin) as (_ & _ & ?).
Qed.

Lemma performSearch_priority_example :
  let a := {| item_zip := "10001"; item_name := "new york, ny";
              item_nameOriginal := "New York, NY"; item_lat := zq 40;
              item_lon := zq (-74); item_price := zq 3; item_pop := 21102 |} in
  let b := {| item_zip := "94105"; item_name := "san francisco, ca";
              item_nameOriginal := "San Francisco, CA"; item_lat := zq 37;
              item_lon := zq (-122); item_price := zq (-2); item_pop := 10001 |} in
  let st := {| selectedSuggestionIndex := (-1)%Z; currentSuggestions := [];
               suggestions_active := false; searchBox := "94105";
               flown_to := None; alerted := false |} in
  id (searchBox st) ≠ EmptyString ∧
  flown_to (performSearch [a; b] id id st) = Some b.
Proof.
  intros a b st.
  assert (id (searchBox st) ≠ EmptyString) as Hq by done.
  split; [exact Hq|].
  refine (proj1 (performSearch_priority [a; b] id id st Hq) [a] b [] eq_refl eq_refl _).
  intros x ->%list_elem_of_singleton. done.
Defined.
